(** * Solana wallet analyzer: data acquisition and aggregation

    A shallow embedding of [may13ien.py]: the retrying request client
    [fetch_json], the staking lookup [get_stake_accounts], the asset profile
    builder [fetch_token_profiles_das], the transaction paginator
    [get_transactions] and the statistics part of [main].

    Conventions.
    - A JSON object read with [d.get(k, default)] is a record whose field is an
      [option]; [None] is the absent key and the default is written out where
      the code supplies it.
    - Python integers are [Z]; lengths and counters that only grow from 0 are
      [nat].
    - Python floats are idealised as exact rationals ([Qc]).  The tests the
      code runs on them ([== 0], [> 0]) give the same answer on the rationals
      as on binary64 for every input on which the Python expression does not
      overflow.
    - The upstream services are the environment: every function takes the
      answers of [fetch_json] it will receive. *)

From Stdlib Require Import ZArith QArith Qcanon Qround Qabs Qpower String Ascii List Lia Lqa DecimalString.
From stdpp Require Import base option list numbers strings gmap fin_maps.

Local Open Scope Z_scope.

(** ** Outcomes of a call that may raise *)

Inductive outcome (A : Type) : Type :=
| Ok (a : A)
| Raise (e : string).
Arguments Ok {A} a.
Arguments Raise {A} e.

#[global] Instance outcome_ret : MRet outcome := λ A a, Ok a.
#[global] Instance outcome_bind : MBind outcome := λ A B k r,
  match r with
  | Ok a => k a
  | Raise e => Raise e
  end.

(** [try: body except Exception as e: handler e] *)
Definition try_except {A} (body : outcome A) (handler : string → outcome A) : outcome A :=
  match body with
  | Ok a => Ok a
  | Raise e => handler e
  end.

(** ** Records of the upstream documents *)

(** An element of a transaction's ["nativeTransfers"]. *)
Record transfer := { amount : option Z }.

(** A transaction summary of the history endpoint. *)
Record tx := {
  signature : option string;
  nativeTransfers : option (list transfer)
}.

(** ** Transaction paginator *)

Definition SMALL_TX_THRESHOLD : Z := 100000000.

(** [sum(abs(x.get("amount", 0)) for x in tx.get("nativeTransfers", []))] *)
Definition lam (t : tx) : Z :=
  foldr Z.add 0 (map (λ x, Z.abs (default 0 (amount x))) (default [] (nativeTransfers t))).

Definition is_small (t : tx) : bool := lam t <? SMALL_TX_THRESHOLD.

(** The [for tx in data] loop with its [break]. *)
Fixpoint scan_page (limit : Z) (data : list tx) (normal_txs : list tx) (small_count : nat)
  : list tx * nat :=
  match data with
  | [] => (normal_txs, small_count)
  | t :: rest =>
      if is_small t then scan_page limit rest normal_txs (S small_count)
      else
        let normal_txs := normal_txs ++ [t] in
        if limit <=? Z.of_nat (length normal_txs) then (normal_txs, small_count)
        else scan_page limit rest normal_txs small_count
  end.

(** Truthiness of [data[-1].get("signature")]: absent and empty are falsy. *)
Definition truthy_sig (s : option string) : option string :=
  match s with
  | Some EmptyString => None
  | other => other
  end.

(** The [while True] loop.  [pages] are the answers of the successive
    [fetch_json(url)] calls; once they are used up the upstream has nothing
    more to serve and answers with the empty page.  [before] is the cursor
    sent with the request. *)
Fixpoint get_transactions_loop (pages : list (outcome (list tx))) (limit : Z)
    (normal_txs : list tx) (small_count : nat) (before : option string)
  : outcome (list tx * nat) :=
  match pages with
  | [] => Ok (normal_txs, small_count)
  | Raise e :: _ => Raise e
  | Ok [] :: _ => Ok (normal_txs, small_count)
  | Ok data :: rest =>
      let '(normal_txs, small_count) := scan_page limit data normal_txs small_count in
      if limit <=? Z.of_nat (length normal_txs) then Ok (normal_txs, small_count)
      else
        match truthy_sig (last data ≫= signature) with
        | None => Ok (normal_txs, small_count)
        | Some sig => get_transactions_loop rest limit normal_txs small_count (Some sig)
        end
  end.

Definition get_transactions (pages : list (outcome (list tx))) (limit : Z)
  : outcome (list tx * nat) :=
  get_transactions_loop pages limit [] 0%nat None.

(** The transactions on which the body of the [for] loop ran: a ghost
    companion of [scan_page], following the same tests. *)
Fixpoint observed_page (limit : Z) (data : list tx) (normal_txs : list tx) : list tx :=
  match data with
  | [] => []
  | t :: rest =>
      if is_small t then t :: observed_page limit rest normal_txs
      else
        let normal_txs := normal_txs ++ [t] in
        if limit <=? Z.of_nat (length normal_txs) then [t]
        else t :: observed_page limit rest normal_txs
  end.



(** Everything the upstream would serve, page after page. *)
Definition served (pages : list (outcome (list tx))) : list tx :=
  concat (omap (λ p, match p with Ok data => Some data | Raise _ => None end) pages).

(** ** Resilient request client *)

(** What [fetch_json] does to the outside world. *)
Inductive event :=
| Request (attempt : nat)
| Sleep (seconds : Z).

(** [fetch_json]'s [for attempt in range(retries)] loop.  [http attempt] is
    the outcome of the body of the [try] on that attempt: the decoded document,
    or the text of the exception ([str(e)]).  A loop that runs out without
    returning makes the function return [None]. *)
Fixpoint fetch_json_loop {A} (http : nat → outcome A) (retries : Z) (attempts : list nat)
  : list event * outcome (option A) :=
  match attempts with
  | [] => ([], Ok None)
  | attempt :: rest =>
      match http attempt with
      | Ok doc => ([Request attempt], Ok (Some doc))
      | Raise e =>
          if Z.of_nat attempt =? retries - 1
          then ([Request attempt], Raise ("Request failed: " ++ e)%string)
          else
            let '(evs, r) := fetch_json_loop http retries rest in
            (Request attempt :: Sleep 1 :: evs, r)
      end
  end.

Definition fetch_json {A} (http : nat → outcome A) (retries : Z)
  : list event * outcome (option A) :=
  fetch_json_loop http retries (seq 0 (Z.to_nat retries)).

(** The HTTP calls made, in order. *)
Definition requests (evs : list event) : list nat :=
  omap (λ ev, match ev with Request a => Some a | Sleep _ => None end) evs.

(** The events of [n + 1] failed attempts numbered from [k]: a second's sleep
    after each attempt but the last. *)
Definition failed_run (k n : nat) : list event :=
  flat_map (λ a, [Request a; Sleep 1]) (seq k n) ++ [Request (k + n)].

(** ** Staking balance *)

(** [{"lamports": n}], the shape of an account and of ["nativeBalance"]. *)
Record balance_info := { lamports : option Z }.

Record program_account := { account : option balance_info }.

Module StakeRpc.
(** Answer of [getProgramAccounts]. *)
Record response := { result : option (list program_account) }.
End StakeRpc.

Definition Qc_1e9 : Qc := Qc_of_Z 1000000000.

(** [account.get("account", {}).get("lamports", 0)] *)
Definition account_lamports (a : program_account) : Z :=
  default 0 (lamports (default {| lamports := None |} (account a))).

(** [sum(... for account in data.get("result", []))] *)
Definition sum_lamports (accounts : list program_account) : Z :=
  foldr Z.add 0 (map account_lamports accounts).

(** [answer] is what [fetch_json] gives for the [getProgramAccounts] request.
    The handler also prints a warning. *)
Definition get_stake_accounts (answer : outcome StakeRpc.response) : outcome Qc :=
  try_except
    (data ← answer;
     mret (Qc_of_Z (sum_lamports (default [] (StakeRpc.result data))) / Qc_1e9)%Qc)
    (λ e, mret 0%Qc).

(** ** Asset profiles *)

Module TokenInfo.
(** The ["token_info"] object of an asset. *)
Record t := {
  symbol : option string;
  decimals : option Z;
  balance : option Z
}.
(** [{}] *)
Definition empty : t := {| symbol := None; decimals := None; balance := None |}.
End TokenInfo.

Record asset := { token_info : option TokenInfo.t }.

Module AssetsRpc.
(** The ["result"] object of [getAssetsByOwner]. *)
Record result_t := {
  items : option (list asset);
  nativeBalance : option balance_info
}.
(** [{}] *)
Definition empty : result_t := {| items := None; nativeBalance := None |}.
(** Answer of [getAssetsByOwner]. *)
Record response := { result : option result_t }.
End AssetsRpc.

(** An entry of [token_profiles]. *)
Record profile := {
  symbol : string;
  balance : Qc;
  txVolume : string
}.

(** [10**decimals] as a rational; a negative exponent gives the inverse power. *)
Definition pow10 (decimals : Z) : Qc := Q2Qc (Qpower (inject_Z 10) decimals).

(** [float(token_info.get("balance", 0)) / 10**decimals] *)
Definition token_balance (ti : TokenInfo.t) : Qc :=
  let decimals := default 0 (TokenInfo.decimals ti) in
  (Qc_of_Z (default 0%Z (TokenInfo.balance ti)) / pow10 decimals)%Qc.

(** The [for asset in result.get("items", [])] loop. *)
Fixpoint token_loop (items : list asset) (token_profiles : list profile) : list profile :=
  match items with
  | [] => token_profiles
  | a :: rest =>
      let ti := default TokenInfo.empty (token_info a) in
      let symbol := default "Unknown"%string (TokenInfo.symbol ti) in
      if String.eqb symbol "Unknown" then token_loop rest token_profiles
      else
        let balance := token_balance ti in
        if bool_decide (balance = 0%Qc) then token_loop rest token_profiles
        else token_loop rest
               (token_profiles ++ [{| symbol := symbol; balance := balance; txVolume := "" |}])
  end.

(** [assets_answer] and [stake_answer] are what [fetch_json] gives for the
    [getAssetsByOwner] and the [getProgramAccounts] requests. *)
Definition fetch_token_profiles_das
    (assets_answer : outcome AssetsRpc.response) (stake_answer : outcome StakeRpc.response)
  : outcome (list profile) :=
  data ← assets_answer;
  let result := default AssetsRpc.empty (AssetsRpc.result data) in
  let token_profiles := token_loop (default [] (AssetsRpc.items result)) [] in
  let lamports :=
    default 0 (lamports (default {| lamports := None |} (AssetsRpc.nativeBalance result))) in
  let token_profiles :=
    if lamports =? 0 then token_profiles
    else token_profiles ++
           [{| symbol := "SOL"; balance := (Qc_of_Z lamports / Qc_1e9)%Qc; txVolume := "" |}] in
  staked ← get_stake_accounts stake_answer;
  let token_profiles :=
    if bool_decide (0 < staked)%Qc
    then token_profiles ++ [{| symbol := "stakedSOL"; balance := staked; txVolume := "" |}]
    else token_profiles in
  mret token_profiles.

(** The parts of the answer the builder reads. *)
Definition upstream_items (data : AssetsRpc.response) : list asset :=
  default [] (AssetsRpc.items (default AssetsRpc.empty (AssetsRpc.result data))).

Definition native_lamports (data : AssetsRpc.response) : Z :=
  default 0 (lamports (default {| lamports := None |}
    (AssetsRpc.nativeBalance (default AssetsRpc.empty (AssetsRpc.result data))))).

(** [token_info.get("symbol", "Unknown")] of an asset. *)
Definition asset_symbol (a : asset) : string :=
  default "Unknown"%string (TokenInfo.symbol (default TokenInfo.empty (token_info a))).

(** The synthetic entries, as the two [if]s append them. *)
Definition sol_profile (lamports : Z) : list profile :=
  if lamports =? 0 then []
  else [{| symbol := "SOL"; balance := (Qc_of_Z lamports / Qc_1e9)%Qc; txVolume := "" |}].

Definition staked_profile (staked : Qc) : list profile :=
  if bool_decide (0 < staked)%Qc
  then [{| symbol := "stakedSOL"; balance := staked; txVolume := "" |}]
  else [].

(** What one upstream asset contributes to the list, if anything. *)
Definition profile_of_asset (a : asset) : option profile :=
  let ti := default TokenInfo.empty (token_info a) in
  let symbol := default "Unknown"%string (TokenInfo.symbol ti) in
  if String.eqb symbol "Unknown" then None
  else if bool_decide (token_balance ti = 0%Qc) then None
  else Some {| symbol := symbol; balance := token_balance ti; txVolume := "" |}.

(** ** Statistics *)

(** A parsed record of the transaction-detail endpoint. *)
Record parsed_tx := {
  type : option string;
  tokenSymbol : option string
}.

(** [c[k] = c.get(k, 0) + 1], what [Counter] does for each element. *)
Definition bump (c : gmap string nat) (k : string) : gmap string nat :=
  <[k := S (default 0%nat (c !! k))]> c.

(** [collections.Counter(keys)] *)
Definition Counter (keys : list string) : gmap string nat := foldl bump ∅ keys.

(** [sum(count.values())] *)
Definition counter_total (c : gmap string nat) : nat :=
  map_fold (λ _ n acc, (n + acc)%nat) 0%nat c.

(** Rounding to the nearest integer, ties to the even one, as the [f]
    presentation type rounds the value it is given. *)
Definition round_half_even (q : Q) : Z :=
  let f := Qfloor q in
  match Qcompare (q - inject_Z f) (1 # 2) with
  | Lt => f
  | Gt => f + 1
  | Eq => if Z.even f then f else f + 1
  end.

Definition decimal (n : Z) : string := NilZero.string_of_uint (N.to_uint (Z.to_N n)).

Definition two_digits (n : Z) : string :=
  ((if (n <? 10)%Z then "0" else "") ++ decimal n)%string.

(** [f"{x:.2%}"]: [x] times 100 in fixed point with two decimals, then [%]. *)
Definition format_percent (x : Qc) : string :=
  let r := Z.abs (round_half_even (Qcanon.this x * inject_Z 100 * inject_Z 100)) in
  ((if bool_decide (x < 0)%Qc then "-" else "")
   ++ decimal (r / 100) ++ "." ++ two_digits (r mod 100) ++ "%")%string.

(** Python's true division of two integers. *)
Definition py_div (a b : Z) : outcome Qc :=
  if b =? 0 then Raise "division by zero" else Ok (Qc_of_Z a / Qc_of_Z b)%Qc.


(** [sum(1 for tx in parsed if tx.get("tokenSymbol", "") == sym)] *)
Definition symbol_count (parsed : list parsed_tx) (sym : string) : nat :=
  length (filter (λ r, default ""%string (tokenSymbol r) = sym) parsed).

(** [f"{n/total:.2%}" if total else "0.00%"]: the division is evaluated only
    on the branch taken when [total] is truthy. *)
Definition volume_ratio (n total : nat) : outcome string :=
  match total with
  | O => Ok "0.00%"%string
  | _ => q ← py_div (Z.of_nat n) (Z.of_nat total); mret (format_percent q)
  end.

(** The [for profile in token_profiles] loop of [main]; the assignment to
    [profile["txVolume"]] replaces the field. *)
Fixpoint annotate (parsed : list parsed_tx) (total : nat) (token_profiles : list profile)
  : outcome (list profile) :=
  match token_profiles with
  | [] => Ok []
  | p :: rest =>
      let sym := symbol p in
      let n := symbol_count parsed sym in
      v ← volume_ratio n total;
      rest ← annotate parsed total rest;
      mret ({| symbol := symbol p; balance := balance p; txVolume := v |} :: rest)
  end.

(** [Counter(tx.get("type", "UNKNOWN") for tx in parsed)] *)
Definition type_distribution (parsed : list parsed_tx) : gmap string nat :=
  Counter (map (λ r, default "UNKNOWN"%string (type r)) parsed).

(** ** The analysis of one address *)

(** The upstream services as [main] sees them through [fetch_json]: the
    successive pages of an address's history, its assets, its stake accounts,
    and the parsed records for a batch of signatures. *)
Record upstream := {
  history : string → list (outcome (list tx));
  assets : string → outcome AssetsRpc.response;
  stakes : string → outcome StakeRpc.response;
  details : list string → outcome (list parsed_tx)
}.

(** [[tx["signature"] for tx in txs]]: a subscript on an absent key raises
    [KeyError]. *)
Fixpoint signatures (txs : list tx) : outcome (list string) :=
  match txs with
  | [] => Ok []
  | t :: rest =>
      match signature t with
      | None => Raise "'signature'"
      | Some s => sigs ← signatures rest; mret (s :: sigs)
      end
  end.

(** [range(0, stop, step)] for a positive [step]. *)
Definition range_step (stop step : nat) : list nat :=
  map (λ k, k * step)%nat (seq 0 ((stop + step - 1) / step)%nat).

(** [l[i:j]] for [0 <= i <= j]. *)
Definition slice {A} (l : list A) (i j : nat) : list A := take (j - i) (drop i l).

(** The batch loop of [main]: [for i in range(0, len(sigs), 20)]. *)
Fixpoint resolve_loop (details : list string → outcome (list parsed_tx))
    (sigs : list string) (indices : list nat) (parsed : list parsed_tx)
  : outcome (list parsed_tx) :=
  match indices with
  | [] => Ok parsed
  | i :: rest =>
      let batch := slice sigs i (i + 20) in
      data ← details batch;
      resolve_loop details sigs rest (parsed ++ data)
  end.

Definition resolve (details : list string → outcome (list parsed_tx)) (sigs : list string)
  : outcome (list parsed_tx) :=
  resolve_loop details sigs (range_step (length sigs) 20) [].

(** What one pass of [main]'s loop hands to its report. *)
Record stats := {
  total : nat;
  small_tx_count : nat;
  count : gmap string nat;
  token_profiles : list profile
}.

(** The body of [main]'s loop from [get_transactions] to the last statistic.
    No step is wrapped in a [try]. *)
Definition analyse (up : upstream) (addr : string) : outcome stats :=
  '(txs, small_tx_count) ← get_transactions (history up addr) 500;
  token_profiles ← fetch_token_profiles_das (assets up addr) (stakes up addr);
  sigs ← signatures txs;
  let sigs := take 100 sigs in
  parsed ← resolve (details up) sigs;
  let total := length parsed in
  let count := type_distribution parsed in
  token_profiles ← annotate parsed total token_profiles;
  mret {| total := total; small_tx_count := small_tx_count;
          count := count; token_profiles := token_profiles |}.

(** ** The command loop *)

(** [str.lower] on ASCII letters. *)
Definition lower_ascii (c : ascii) : ascii :=
  let n := nat_of_ascii c in
  if ((65 <=? n) && (n <=? 90))%nat then ascii_of_nat (n + 32) else c.

Fixpoint lower (s : string) : string :=
  match s with
  | EmptyString => EmptyString
  | String c s => String (lower_ascii c) (lower s)
  end.

(** The ASCII characters [str.strip] removes. *)
Definition is_space (c : ascii) : bool :=
  let n := nat_of_ascii c in
  (((9 <=? n) && (n <=? 13)) || ((28 <=? n) && (n <=? 32)))%nat.

Fixpoint lstrip (s : list ascii) : list ascii :=
  match s with
  | c :: rest => if is_space c then lstrip rest else s
  | [] => []
  end.

Definition strip (s : string) : string :=
  string_of_list_ascii (rev (lstrip (rev (lstrip (list_ascii_of_string s))))).

(** What the operator sees of a session. *)
Inductive output :=
| Banner
| AskAddress
| Report (addr : string) (st : stats)
| AskSave
| Saved (addr : string).

(** The [while True] loop of [main].  [inputs] are the lines [input] will
    return; reading past them raises [EOFError].  The narrative stage between
    the statistics and the save prompt catches its own exceptions and is folded
    into [Report]. *)
Fixpoint main_loop (up : upstream) (inputs : list string) : list output * outcome unit :=
  match inputs with
  | [] => ([AskAddress], Raise "EOFError")
  | line :: inputs =>
      let addr := strip line in
      if bool_decide (lower addr ∈ ["exit"; "quit"]%string) then ([AskAddress], Ok ())
      else
        match analyse up addr with
        | Raise e => ([AskAddress], Raise e)
        | Ok st =>
            match inputs with
            | [] => ([AskAddress; Report addr st; AskSave], Raise "EOFError")
            | save :: inputs =>
                let '(outs, r) := main_loop up inputs in
                ([AskAddress; Report addr st; AskSave]
                   ++ (if bool_decide (lower (strip save) = "y"%string) then [Saved addr] else [])
                   ++ outs, r)
            end
        end
  end.

Definition main (up : upstream) (inputs : list string) : list output * outcome unit :=
  let '(outs, r) := main_loop up inputs in (Banner :: outs, r).

(** ** Sample data *)

(** Two transfers of 0.15 and 0.05 SOL: 0.2 SOL moved. *)
Definition tx_big : tx :=
  {| signature := Some "big"%string;
     nativeTransfers :=
       Some [ {| amount := Some 150000000 |}; {| amount := Some (-50000000) |} ] |}.

(** Five lamports moved. *)
Definition tx_dust : tx :=
  {| signature := Some "dust"%string; nativeTransfers := Some [ {| amount := Some 5 |} ] |}.

(** An HTTP layer that fails differently on each attempt. *)
Definition failure_text (attempt : nat) : string :=
  match attempt with
  | 0%nat => "timed out"
  | 1%nat => "503 Service Unavailable"
  | _ => "connection reset"
  end.

Definition token (sym : string) (decimals raw : Z) : asset :=
  {| token_info := Some {| TokenInfo.symbol := Some sym;
                           TokenInfo.decimals := Some decimals;
                           TokenInfo.balance := Some raw |} |}.

Definition assets_of (items : list asset) (native : Z) : AssetsRpc.response :=
  {| AssetsRpc.result :=
       Some {| AssetsRpc.items := Some items;
               AssetsRpc.nativeBalance := Some {| lamports := Some native |} |} |}.

Definition stake_of (balances : list Z) : StakeRpc.response :=
  {| StakeRpc.result :=
       Some (map (λ z, {| account := Some {| lamports := Some z |} |}) balances) |}.

Definition swap : parsed_tx := {| type := Some "SWAP"%string; tokenSymbol := Some "USDC"%string |}.
Definition transfer_rec : parsed_tx := {| type := Some "TRANSFER"%string; tokenSymbol := None |}.
Definition untyped : parsed_tx := {| type := None; tokenSymbol := Some "SOL"%string |}.

(** An upstream whose history for address [A] cannot be fetched. *)
Definition flaky_upstream : upstream := {|
  history := λ addr,
    if String.eqb addr "A" then [Raise "Request failed: timed out"%string] else [];
  assets := λ _, Ok {| AssetsRpc.result := None |};
  stakes := λ _, Ok {| StakeRpc.result := None |};
  details := λ _, Ok []
|}.

(** An upstream that answers every signature with one transfer record. *)
Definition steady_upstream : upstream := {|
  history := λ _, [Ok [tx_big; tx_dust; tx_big]];
  assets := λ _, Ok (assets_of [token "USDC" 6 1500000] 2500000000);
  stakes := λ _, Ok (stake_of [1000000000]);
  details := λ batch, Ok (map (λ _, transfer_rec) batch)
|}.

(** ** Further parts of the program *)

(** Seconds slept in a run of [fetch_json]. *)
Definition sleeps (evs : list event) : Z :=
  foldr Z.add 0 (omap (λ ev, match ev with Sleep n => Some n | Request _ => None end) evs).

(** What [fetch_parsed_signatures] does to the outside world: a batch posted
    to the detail endpoint, a pause. *)
Inductive call :=
| Post (batch : list string)
| Pause (seconds : Z).

(** The body of [fetch_parsed_signatures]'s loop over a positive
    [batch_size]: [batch = sigs[i:i+batch_size]], the request,
    [results.extend(data)], [asyncio.sleep(1)]. *)
Fixpoint fetch_parsed_signatures_loop (details : list string → outcome (list parsed_tx))
    (sigs : list string) (batch_size : nat) (indices : list nat) (results : list parsed_tx)
  : list call * outcome (list parsed_tx) :=
  match indices with
  | [] => ([], Ok results)
  | i :: rest =>
      let batch := slice sigs i (i + batch_size) in
      match details batch with
      | Raise e => ([Post batch], Raise e)
      | Ok data =>
          let '(calls, r) :=
            fetch_parsed_signatures_loop details sigs batch_size rest (results ++ data) in
          (Post batch :: Pause 1 :: calls, r)
      end
  end.

(** [fetch_parsed_signatures(sigs, batch_size)].  [range(0, len(sigs), 0)]
    raises [ValueError]; a negative step gives the empty range. *)
Definition fetch_parsed_signatures (details : list string → outcome (list parsed_tx))
    (sigs : list string) (batch_size : Z) : list call * outcome (list parsed_tx) :=
  if batch_size =? 0 then ([], Raise "range() arg 3 must not be zero")
  else if batch_size <? 0 then ([], Ok [])
  else
    fetch_parsed_signatures_loop details sigs (Z.to_nat batch_size)
      (range_step (length sigs) (Z.to_nat batch_size)) [].

(** The batches posted, in order, and the seconds paused. *)
Definition posts (calls : list call) : list (list string) :=
  omap (λ c, match c with Post b => Some b | Pause _ => None end) calls.

Definition pauses (calls : list call) : Z :=
  foldr Z.add 0 (omap (λ c, match c with Pause n => Some n | Post _ => None end) calls).

(** A transaction with the sign of every transfer amount flipped. *)
Definition flip_amounts (t : tx) : tx :=
  {| signature := signature t;
     nativeTransfers :=
       (λ l, map (λ x, {| amount := Z.opp <$> amount x |}) l) <$> nativeTransfers t |}.

(** The narrative stage of [main], from the chat request to the text kept in
    [analysis].  [chat] is the reply's content or the exception of the
    request, [clean] the removal of the Markdown fence and [loads] is
    [json.loads], [None] standing for its exception.  Either exception leaves
    ["{}"] in [analysis]. *)
Definition narrative {J} (loads : string → option J) (clean : string → string)
    (chat : outcome string) : string :=
  match chat with
  | Raise _ => "{}"
  | Ok content =>
      let analysis := clean content in
      match loads analysis with
      | Some _ => analysis
      | None => "{}"
      end
  end.

(** [json.loads(analysis)] of the save step, whose result is dumped to the
    file. *)
Definition save_document {J} (loads : string → option J) (analysis : string) : outcome J :=
  match loads analysis with
  | Some doc => Ok doc
  | None => Raise "JSONDecodeError"
  end.

(** One visit of a session: the line typed at the address prompt and the line
    typed at the save prompt. *)
Definition session_inputs (visits : list (string * string)) : list string :=
  flat_map (λ v, [v.1; v.2]) visits.

(** What [main] shows for a visit whose analysis succeeds. *)
Definition visit_output (up : upstream) (v : string * string) : list output :=
  match analyse up (strip v.1) with
  | Ok st =>
      [AskAddress; Report (strip v.1) st; AskSave]
        ++ (if bool_decide (lower (strip v.2) = "y"%string) then [Saved (strip v.1)] else [])
  | Raise _ => []
  end.

(** The batches [sigs[i:i+batch_size]] for [i] in
    [range(0, len(sigs), batch_size)]. *)
Definition batches (sigs : list string) (batch_size : nat) : list (list string) :=
  map (λ i, slice sigs i (i + batch_size)) (range_step (length sigs) batch_size).

(** [token_info.get("balance", 0)] of an asset. *)
Definition asset_raw_balance (a : asset) : Z :=
  default 0 (TokenInfo.balance (default TokenInfo.empty (token_info a))).

(** [addr.lower() in ("exit", "quit")] for the line read at the address
    prompt. *)
Definition is_quit (line : string) : Prop := lower (strip line) ∈ ["exit"; "quit"]%string.

(** ** More sample data *)

(** An HTTP layer that fails twice and then answers. *)
Definition recovering_http (attempt : nat) : outcome string :=
  match attempt with
  | 0%nat | 1%nat => Raise (failure_text attempt)
  | _ => Ok "document"%string
  end.

(** A normal transaction that carries no signature. *)
Definition tx_unsigned : tx :=
  {| signature := None; nativeTransfers := Some [ {| amount := Some 300000000 |} ] |}.

(** A transaction without native transfers. *)
Definition tx_token_only : tx :=
  {| signature := Some "token"%string; nativeTransfers := None |}.

(** A detail endpoint that refuses batches of fewer than two signatures. *)
Definition picky_details (batch : list string) : outcome (list parsed_tx) :=
  if (length batch <? 2)%nat then Raise "Request failed: 400 Bad Request"
  else Ok ((λ _, transfer_rec) <$> batch).

(** An upstream whose detail endpoint refuses the only batch it is sent. *)
Definition picky_upstream : upstream := {|
  history := λ _, [Ok [tx_big; tx_dust]];
  assets := λ _, Ok (assets_of [token "USDC" 6 1500000] 2500000000);
  stakes := λ _, Ok (stake_of [1000000000]);
  details := picky_details
|}.

(** An upstream whose history holds a normal transaction without signature. *)
Definition unsigned_upstream : upstream := {|
  history := λ _, [Ok [tx_unsigned; tx_big]];
  assets := λ _, Ok (assets_of [] 0);
  stakes := λ _, Raise "Request failed: timed out";
  details := λ batch, Ok ((λ _, transfer_rec) <$> batch)
|}.

(** A [json.loads] that knows two documents. *)
Definition sample_loads (s : string) : option nat :=
  if String.eqb s "{}" then Some 0%nat
  else if String.eqb s "[1, 2]" then Some 1%nat
  else None.

(** ** Ranges of the upstream values *)

(** [token_info.get("decimals", 0)] of an asset. *)
Definition asset_decimals (a : asset) : Z :=
  default 0 (TokenInfo.decimals (default TokenInfo.empty (token_info a))).

(** Numbers on which the float expressions of the builder raise nothing:
    [float(balance)] and [lamports / 1e9] need an integer that converts to a
    double, and [... / 10**decimals] needs a power of ten that neither exceeds
    the largest double ([decimals >= 309], [OverflowError]) nor underflows to
    0.0 ([decimals <= -324], [ZeroDivisionError]).  Outside this range the
    program raises where the rationals of this development do not. *)
Definition float_range_asset (a : asset) : Prop :=
  -323 ≤ asset_decimals a ≤ 308 ∧ Z.abs (asset_raw_balance a) ≤ 2 ^ 1023.

Definition float_range (data : AssetsRpc.response) : Prop :=
  Forall float_range_asset (upstream_items data) ∧
  Z.abs (native_lamports data) ≤ 2 ^ 1023.

(** A line made of ASCII characters only.  On such a line [strip] and [lower]
    are [str.strip] and [str.lower]; beyond ASCII, Python also strips and
    lowers characters that [strip] and [lower] leave alone. *)
Definition ascii_line (s : string) : Prop :=
  Forall (λ c, (nat_of_ascii c < 128)%nat) (list_ascii_of_string s).



(** * Properties *)

(** ** Calls that may raise *)

Lemma bind_Ok {A B} (r : outcome A) (k : A → outcome B) b :
  r ≫= k = Ok b → ∃ a, r = Ok a ∧ k a = Ok b.
Proof. destruct r as [a|e]; [eauto|done]. Qed.

(** ** Transaction paginator *)

Section Paginator.
Implicit Types (t : tx) (data pre post : list tx) (limit : Z).

Abbreviation normal := (λ t : tx, SMALL_TX_THRESHOLD ≤ lam t).
Abbreviation small := (λ t : tx, lam t < SMALL_TX_THRESHOLD).

Lemma is_small_true t : is_small t = true ↔ lam t < SMALL_TX_THRESHOLD.
Proof. unfold is_small. apply Z.ltb_lt. Qed.

Lemma is_small_false t : is_small t = false ↔ SMALL_TX_THRESHOLD ≤ lam t.
Proof. unfold is_small. by rewrite Z.ltb_ge. Qed.


Lemma scan_page_observed limit data normal_txs small_count :
  scan_page limit data normal_txs small_count =
    (normal_txs ++ filter normal (observed_page limit data normal_txs),
     (small_count + length (filter small (observed_page limit data normal_txs)))%nat).
Proof.
  revert normal_txs small_count.
  induction data as [|t data IH]; intros normal_txs small_count; simpl.
  - rewrite app_nil_r. f_equal. lia.
  - destruct (is_small t) eqn:Ht.
    + apply is_small_true in Ht. rewrite IH, !filter_cons.
      rewrite decide_False by lia. rewrite decide_True by done.
      simpl. f_equal. lia.
    + apply is_small_false in Ht.
      destruct (limit <=? _) eqn:Hl.
      * rewrite !filter_cons, decide_True by done. rewrite decide_False by lia.
        simpl. f_equal. lia.
      * rewrite IH, !filter_cons. rewrite decide_True by done.
        rewrite decide_False by lia. by rewrite <- app_assoc.
Qed.




(** The list of normal transactions never outgrows a target it starts below. *)
Lemma scan_page_bounded limit data normal_txs small_count :
  Z.of_nat (length normal_txs) < limit →
  Z.of_nat (length (scan_page limit data normal_txs small_count).1) ≤ limit.
Proof.
  revert normal_txs small_count.
  induction data as [|t data IH]; intros normal_txs small_count Hlt; simpl; [lia|].
  destruct (is_small t); [by apply IH|].
  destruct (limit <=? _) eqn:Hl.
  - simpl. rewrite length_app. simpl. lia.
  - apply Z.leb_gt in Hl. by apply IH.
Qed.

Lemma get_transactions_loop_page data rest limit normal_txs small_count before :
  data ≠ [] →
  get_transactions_loop (Ok data :: rest) limit normal_txs small_count before =
    let '(normal_txs, small_count) := scan_page limit data normal_txs small_count in
    if limit <=? Z.of_nat (length normal_txs) then Ok (normal_txs, small_count)
    else
      match truthy_sig (last data ≫= signature) with
      | None => Ok (normal_txs, small_count)
      | Some sig => get_transactions_loop rest limit normal_txs small_count (Some sig)
      end.
Proof. by destruct data. Qed.




Lemma get_transactions_loop_bounded pages limit normal_txs small_count before r :
  Z.of_nat (length normal_txs) < limit →
  get_transactions_loop pages limit normal_txs small_count before = Ok r →
  Z.of_nat (length r.1) ≤ limit.
Proof.
  revert normal_txs small_count before.
  induction pages as [|[data|e] pages IH]; intros normal_txs small_count before Hlt.
  - simpl. intros [= <-]. simpl. lia.
  - destruct (decide (data = [])) as [->|Hdata].
    { simpl. intros [= <-]. simpl. lia. }
    rewrite get_transactions_loop_page by done.
    pose proof (scan_page_bounded limit data normal_txs small_count Hlt) as Hb.
    destruct (scan_page limit data normal_txs small_count) as [n' s'].
    simpl in Hb.
    destruct (limit <=? _) eqn:Hl; [by intros [= <-]|].
    apply Z.leb_gt in Hl.
    destruct (truthy_sig _); [by apply IH|by intros [= <-]].
  - done.
Qed.

Lemma scan_page_target limit pre t post normal_txs small_count :
  SMALL_TX_THRESHOLD ≤ lam t →
  Z.of_nat (length normal_txs + length (filter normal pre) + 1) = limit →
  scan_page limit (pre ++ t :: post) normal_txs small_count =
    (normal_txs ++ filter normal pre ++ [t],
     (small_count + length (filter small pre))%nat).
Proof.
  intros Ht. revert normal_txs small_count.
  induction pre as [|u pre IH]; intros normal_txs small_count Hlim; simpl.
  - apply is_small_false in Ht. rewrite Ht.
    rewrite length_app. simpl in *.
    destruct (limit <=? _) eqn:Hl; [f_equal; lia|]. apply Z.leb_gt in Hl. lia.
  - rewrite !filter_cons in *.
    destruct (is_small u) eqn:Hu.
    + apply is_small_true in Hu.
      rewrite decide_False in * by lia. rewrite decide_True by done.
      rewrite IH by done. simpl. f_equal. lia.
    + apply is_small_false in Hu.
      rewrite decide_True in * by done. rewrite decide_False by lia.
      simpl in Hlim.
      destruct (limit <=? _) eqn:Hl.
      { apply Z.leb_le in Hl. rewrite length_app in Hl. simpl in Hl. lia. }
      rewrite IH.
      * by rewrite <- app_assoc.
      * rewrite length_app. simpl. lia.
Qed.

(** C1 (as amended).  When the page [pre ++ t :: post] is scanned and the
    normal transaction [t] is the one that brings the list to [limit], the
    paginator returns exactly [limit] normal transactions, the last of them
    [t], and [small_count] has grown by the sub-threshold transactions of [pre]
    only: nothing of [post], small or not, is looked at, and no further page is
    fetched. *)
Theorem get_transactions_stops_at_target
    limit normal_txs small_count before pre t post rest :
  SMALL_TX_THRESHOLD ≤ lam t →
  Z.of_nat (length normal_txs + length (filter normal pre) + 1) = limit →
  get_transactions_loop (Ok (pre ++ t :: post) :: rest) limit normal_txs small_count before
    = Ok (normal_txs ++ filter normal pre ++ [t],
          (small_count + length (filter small pre))%nat)
  ∧ Z.of_nat (length (normal_txs ++ filter normal pre ++ [t])) = limit.
Proof.
  intros Ht Hlim. split.
  - rewrite get_transactions_loop_page by (by destruct pre).
    rewrite scan_page_target by done.
    rewrite !length_app. simpl.
    destruct (limit <=? _) eqn:Hl; [done|]. apply Z.leb_gt in Hl. lia.
  - rewrite !length_app. simpl. lia.
Qed.


End Paginator.

Lemma get_transactions_stops_at_target_witness :
  SMALL_TX_THRESHOLD ≤ lam tx_big ∧
  get_transactions [Ok [tx_dust; tx_big; tx_dust; tx_big]] 1 = Ok ([tx_big], 1%nat).
Proof.
  assert (Hbig : SMALL_TX_THRESHOLD ≤ lam tx_big) by (vm_compute; discriminate).
  split; [exact Hbig|].
  exact (proj1 (get_transactions_stops_at_target 1 [] 0%nat None [tx_dust] tx_big
                  [tx_dust; tx_big] [] Hbig eq_refl)).
Defined.

(** With a target of 1, the page [big; dust] is left at [big]: the dust
    transaction after it is sub-threshold and in the page, and is not counted. *)
Lemma get_transactions_small_after_target_not_counted :
  get_transactions [Ok [tx_big; tx_dust]] 1 = Ok ([tx_big], 0%nat) ∧
  length (filter (λ t, lam t < SMALL_TX_THRESHOLD) [tx_big; tx_dust]) = 1%nat ∧
  0%nat ≠ length (filter (λ t, lam t < SMALL_TX_THRESHOLD) [tx_big; tx_dust]).
Proof. split; [reflexivity|]. split; [reflexivity|]. discriminate. Qed.


(** ** Resilient request client *)

Section Retry.
Context {A : Type} (http : nat → outcome A) (msg : nat → string).
Hypothesis always_fails : ∀ attempt, http attempt = Raise (msg attempt).

Lemma fetch_json_loop_all_fail retries k n :
  (k + S n)%nat = Z.to_nat retries →
  fetch_json_loop http retries (seq k (S n)) =
    (failed_run k n, Raise ("Request failed: " ++ msg (k + n))%string).
Proof.
  revert k. induction n as [|n IH]; intros k Hk.
  - simpl. rewrite always_fails.
    replace (Z.of_nat k =? retries - 1) with true by (symmetry; apply Z.eqb_eq; lia).
    unfold failed_run. simpl. by rewrite Nat.add_0_r.
  - change (seq k (S (S n))) with (k :: seq (S k) (S n)).
    cbn [fetch_json_loop]. rewrite always_fails.
    replace (Z.of_nat k =? retries - 1) with false by (symmetry; apply Z.eqb_neq; lia).
    rewrite IH by lia. unfold failed_run. simpl.
    by rewrite Nat.add_succ_r.
Qed.

Lemma requests_failed_run k n : requests (failed_run k n) = seq k (S n).
Proof.
  unfold failed_run, requests. revert k. induction n as [|n IH]; intros k.
  - simpl. by rewrite Nat.add_0_r.
  - change (seq k (S (S n))) with (k :: seq (S k) (S n)).
    change (seq k (S n)) with (k :: seq (S k) n).
    cbn [flat_map app omap list_omap]. f_equal.
    rewrite <- IH. by rewrite Nat.add_succ_r.
Qed.

(** C4.  With [retries >= 1] and an HTTP layer that fails on every attempt,
    [fetch_json] makes the attempts [0 .. retries - 1] and no other, sleeps
    one second after each of them but the last, and then raises
    ["Request failed: "] followed by the text of the last failure. *)
Theorem fetch_json_retry_exhaustion retries :
  1 ≤ retries →
  let n := Z.to_nat retries in
  fetch_json http retries =
    (failed_run 0 (n - 1), Raise ("Request failed: " ++ msg (n - 1))%string)
  ∧ requests (fetch_json http retries).1 = seq 0 n
  ∧ length (requests (fetch_json http retries).1) = n.
Proof.
  intros Hr n. unfold fetch_json. fold n.
  assert (Hn : n = S (n - 1)) by lia.
  assert (H : fetch_json_loop http retries (seq 0 n) =
           (failed_run 0 (n - 1), Raise ("Request failed: " ++ msg (n - 1))%string)).
  { rewrite Hn at 1. by rewrite fetch_json_loop_all_fail by lia. }
  rewrite H. simpl. rewrite requests_failed_run, <- Hn.
  split; [done|]. split; [done|]. apply length_seq.
Qed.

End Retry.

Lemma fetch_json_retry_exhaustion_witness :
  1 ≤ 3 ∧
  fetch_json (A:=unit) (λ a, Raise (failure_text a)) 3 =
    ([Request 0; Sleep 1; Request 1; Sleep 1; Request 2],
     Raise "Request failed: connection reset"%string).
Proof.
  assert (H : 1 ≤ 3) by lia.
  split; [exact H|].
  exact (proj1 (fetch_json_retry_exhaustion (A:=unit) (λ a, Raise (failure_text a))
                  failure_text (λ _, eq_refl) 3 H)).
Defined.

(** ** Rationals *)

Section Rationals.

Lemma Qc_1e9_pos : (0 < Qc_1e9)%Qc.
Proof. reflexivity. Qed.

Lemma Qc_1e9_nonzero : Qc_1e9 ≠ 0%Qc.
Proof. intros H. discriminate H. Qed.

Lemma Qc_of_Z_nonneg z : 0 ≤ z → (0 ≤ Qc_of_Z z)%Qc.
Proof. intros Hz. unfold Qcle, Qc_of_Z. simpl. unfold Qle. simpl. lia. Qed.

Lemma Qc_of_Z_zero z : Qc_of_Z z = 0%Qc → z = 0.
Proof.
  intros H. apply (f_equal (λ q : Qc, Qnum (Qcanon.this q))) in H. by simpl in H.
Qed.

Lemma Qcdiv_nonneg (x y : Qc) : (0 ≤ x)%Qc → (0 < y)%Qc → (0 ≤ x / y)%Qc.
Proof.
  intros Hx Hy. apply Qcmult_lt_0_le_reg_r with y; [done|].
  rewrite Qcmult_0_l. unfold Qcdiv.
  rewrite <- Qcmult_assoc, Qcmult_inv_l, Qcmult_1_r; [done|].
  intros ->. by apply (Qclt_not_eq _ _ Hy).
Qed.

Lemma Qcdiv_zero (x y : Qc) : y ≠ 0%Qc → (x / y)%Qc = 0%Qc → x = 0%Qc.
Proof. intros Hy H. rewrite <- (Qcmult_div_r x y Hy), H. apply Qcmult_0_r. Qed.

Lemma lamports_balance_nonzero z : z ≠ 0 → (Qc_of_Z z / Qc_1e9)%Qc ≠ 0%Qc.
Proof.
  intros Hz H. apply Qcdiv_zero in H; [|apply Qc_1e9_nonzero].
  by apply Qc_of_Z_zero in H.
Qed.

Lemma Qc_of_Z_div_this (a b : Z) :
  (Qcanon.this (Qc_of_Z a / Qc_of_Z b)%Qc == inject_Z a / inject_Z b)%Q.
Proof.
  unfold Qcdiv, Qcmult, Qcinv, Q2Qc. simpl Qcanon.this.
  rewrite !Qred_correct. reflexivity.
Qed.




End Rationals.

(** ** Staking balance *)

Section Staking.


Lemma get_stake_accounts_ok answer : ∃ staked, get_stake_accounts answer = Ok staked.
Proof. destruct answer; simpl; eauto. Qed.


End Staking.


(** ** Asset profiles *)

Section Profiles.
Implicit Types (items : list asset) (p : profile).

Lemma token_loop_omap items token_profiles :
  token_loop items token_profiles = token_profiles ++ omap profile_of_asset items.
Proof.
  revert token_profiles.
  induction items as [|a items IH]; intros token_profiles; simpl.
  - by rewrite app_nil_r.
  - unfold profile_of_asset.
    destruct (String.eqb _ _); [apply IH|].
    destruct (bool_decide _); [apply IH|].
    by rewrite IH, <- app_assoc.
Qed.

Lemma fetch_token_profiles_das_unfold data stake_answer staked :
  get_stake_accounts stake_answer = Ok staked →
  fetch_token_profiles_das (Ok data) stake_answer =
    Ok (omap profile_of_asset (upstream_items data)
          ++ sol_profile (native_lamports data) ++ staked_profile staked).
Proof.
  intros Hs. unfold fetch_token_profiles_das. simpl. rewrite Hs. simpl.
  rewrite token_loop_omap. simpl.
  fold (upstream_items data). fold (native_lamports data).
  unfold sol_profile, staked_profile.
  destruct (native_lamports data =? 0), (bool_decide _);
    unfold mret, outcome_ret; f_equal; by rewrite ?app_nil_r, <- ?app_assoc.
Qed.

Lemma profile_of_asset_Some a p :
  profile_of_asset a = Some p →
  symbol p = asset_symbol a ∧ asset_symbol a ≠ "Unknown"%string ∧ balance p ≠ 0%Qc.
Proof.
  unfold profile_of_asset. fold (asset_symbol a).
  destruct (String.eqb _ _) eqn:Hs; [done|].
  apply String.eqb_neq in Hs.
  destruct (bool_decide _) eqn:Hb; [done|].
  apply bool_decide_eq_false in Hb. by intros [= <-].
Qed.

(** The token entries keep the upstream order. *)
Lemma token_symbols_sublist items :
  (symbol <$> omap profile_of_asset items) `sublist_of` (asset_symbol <$> items).
Proof.
  induction items as [|a items IH]; [done|].
  rewrite fmap_cons. cbn [omap list_omap].
  destruct (profile_of_asset a) as [p|] eqn:Hp.
  - apply profile_of_asset_Some in Hp as (Hp & _).
    rewrite fmap_cons, Hp. by apply sublist_skip.
  - by apply sublist_cons.
Qed.

Lemma token_symbols_sublist_known items :
  (symbol <$> omap profile_of_asset items)
    `sublist_of` filter (λ s, s ≠ "Unknown"%string) (asset_symbol <$> items).
Proof.
  induction items as [|a items IH]; [done|].
  rewrite fmap_cons. cbn [omap list_omap]. rewrite filter_cons.
  destruct (profile_of_asset a) as [p|] eqn:Hp.
  - apply profile_of_asset_Some in Hp as (Hp & Hk & _).
    rewrite decide_True by done. rewrite fmap_cons, Hp. by apply sublist_skip.
  - case_decide; [by apply sublist_cons|done].
Qed.

Lemma token_balances_nonzero items :
  Forall (λ p, balance p ≠ 0%Qc) (omap profile_of_asset items).
Proof.
  induction items as [|a items IH]; [done|].
  cbn [omap list_omap].
  destruct (profile_of_asset a) as [p|] eqn:Hp; [|done].
  apply profile_of_asset_Some in Hp as (_ & _ & Hp). by constructor.
Qed.

Lemma sol_profile_nonzero z : Forall (λ p, balance p ≠ 0%Qc) (sol_profile z).
Proof.
  unfold sol_profile. destruct (z =? 0) eqn:Hz; [done|].
  apply Z.eqb_neq in Hz. repeat constructor. by apply lamports_balance_nonzero.
Qed.

Lemma staked_profile_nonzero q : Forall (λ p, balance p ≠ 0%Qc) (staked_profile q).
Proof.
  unfold staked_profile. case_bool_decide as Hq; [|done].
  repeat constructor. simpl. intros ->. by apply (Qclt_not_eq _ _ Hq).
Qed.

Lemma sol_profile_symbols z : symbol <$> sol_profile z `sublist_of` ["SOL"%string].
Proof. unfold sol_profile. destruct (z =? 0); simpl; [by apply sublist_cons|done]. Qed.

Lemma staked_profile_symbols q :
  symbol <$> staked_profile q `sublist_of` ["stakedSOL"%string].
Proof.
  unfold staked_profile. case_bool_decide; simpl; [done|by apply sublist_cons].
Qed.

Lemma scenario_balance : (Qc_of_Z 2500000000 / Qc_1e9)%Qc = Q2Qc (5 # 2).
Proof. apply Qc_is_canon. reflexivity. Qed.

(** C3 (as amended).  No entry of the returned list has balance 0.  The
    builder never merges entries, so symbols are distinct only when the
    upstream's are: if the assets that carry a symbol have pairwise distinct
    symbols and none is named [SOL] or [stakedSOL], no two entries share a
    symbol. *)
Theorem fetch_token_profiles_das_no_zero_balance
    assets_answer stake_answer token_profiles :
  fetch_token_profiles_das assets_answer stake_answer = Ok token_profiles →
  Forall (λ p, balance p ≠ 0%Qc) token_profiles ∧
  ∀ data, assets_answer = Ok data →
    NoDup (filter (λ s, s ≠ "Unknown"%string) (asset_symbol <$> upstream_items data)) →
    "SOL"%string ∉ asset_symbol <$> upstream_items data →
    "stakedSOL"%string ∉ asset_symbol <$> upstream_items data →
    NoDup (symbol <$> token_profiles).
Proof.
  destruct assets_answer as [data|e]; [|done].
  destruct (get_stake_accounts_ok stake_answer) as [staked Hs].
  rewrite (fetch_token_profiles_das_unfold _ _ _ Hs). intros [= <-]. split.
  - rewrite !Forall_app.
    auto using token_balances_nonzero, sol_profile_nonzero, staked_profile_nonzero.
  - intros ? [= <-] Hnd Hsol Hstk.
    assert (Hsub : symbol <$> (omap profile_of_asset (upstream_items data)
                       ++ sol_profile (native_lamports data) ++ staked_profile staked)
              `sublist_of`
              filter (λ s, s ≠ "Unknown"%string) (asset_symbol <$> upstream_items data)
                ++ ["SOL"; "stakedSOL"]%string).
    { rewrite !fmap_app. apply sublist_app; [apply token_symbols_sublist_known|].
      apply (sublist_app _ ["SOL"%string] _ ["stakedSOL"%string]);
        [apply sol_profile_symbols|apply staked_profile_symbols]. }
    refine (sublist_NoDup _ _ _ Hsub).
    apply NoDup_app. split; [done|]. split.
    + intros x [_ Hx]%list_elem_of_filter.
      rewrite !elem_of_cons, elem_of_nil. intros [->|[->|[]]]; done.
    + apply NoDup_cons. split; [|apply NoDup_singleton].
      by rewrite list_elem_of_singleton.
Qed.

(** C8.  The returned list is the token entries in upstream order, then the
    [SOL] entry when the native balance is positive (and none when it is 0),
    then the [stakedSOL] entry when the staking balance is strictly positive
    (and none otherwise).  An address with a native balance of 2,500,000,000
    lamports, no tokens and no staking gets exactly the [SOL] entry with
    balance 5/2. *)
Theorem fetch_token_profiles_das_order data stake_answer :
  ∃ staked,
    get_stake_accounts stake_answer = Ok staked ∧
    fetch_token_profiles_das (Ok data) stake_answer =
      Ok (omap profile_of_asset (upstream_items data)
            ++ sol_profile (native_lamports data) ++ staked_profile staked) ∧
    (symbol <$> omap profile_of_asset (upstream_items data))
      `sublist_of` (asset_symbol <$> upstream_items data) ∧
    (∀ z, 0 < z → sol_profile z =
       [{| symbol := "SOL"; balance := (Qc_of_Z z / Qc_1e9)%Qc; txVolume := "" |}]) ∧
    sol_profile 0 = [] ∧
    (∀ q, (0 < q)%Qc → staked_profile q =
       [{| symbol := "stakedSOL"; balance := q; txVolume := "" |}]) ∧
    (∀ q, (q ≤ 0)%Qc → staked_profile q = []) ∧
    ∀ no_stake,
      no_stake = Raise "Request failed"%string ∨ no_stake = Ok (stake_of []) →
      fetch_token_profiles_das (Ok (assets_of [] 2500000000)) no_stake
      = Ok [{| symbol := "SOL"; balance := Q2Qc (5 # 2); txVolume := "" |}].
Proof.
  destruct (get_stake_accounts_ok stake_answer) as [staked Hs].
  exists staked. split; [done|].
  split; [by apply fetch_token_profiles_das_unfold|].
  split; [apply token_symbols_sublist|].
  split.
  { intros z Hz. unfold sol_profile.
    destruct (z =? 0) eqn:H0; [apply Z.eqb_eq in H0; lia|done]. }
  split; [done|]. split.
  { intros q Hq. unfold staked_profile. by rewrite bool_decide_eq_true_2. }
  split.
  { intros q Hq. unfold staked_profile. rewrite bool_decide_eq_false_2; [done|].
    by apply Qcle_not_lt. }
  intros no_stake Hno.
  assert (Hz : ∃ q, get_stake_accounts no_stake = Ok q ∧ staked_profile q = []).
  { destruct Hno as [->| ->]; eexists; (split; [reflexivity|]); reflexivity. }
  destruct Hz as (q & Hq & Hnil).
  rewrite (fetch_token_profiles_das_unfold _ _ _ Hq), Hnil.
  unfold upstream_items, native_lamports. simpl. unfold sol_profile. simpl.
  by rewrite scenario_balance.
Qed.

End Profiles.

Lemma fetch_token_profiles_das_no_zero_balance_witness :
  let items := [token "USDC" 6 1500000; token "BONK" 5 0; token "JUP" 6 7] in
  NoDup (filter (λ s, s ≠ "Unknown"%string) (asset_symbol <$> items)) ∧
  ("SOL"%string ∉ asset_symbol <$> items) ∧
  ("stakedSOL"%string ∉ asset_symbol <$> items) ∧
  ∃ token_profiles,
    fetch_token_profiles_das (Ok (assets_of items 2500000000)) (Ok (stake_of [7]))
      = Ok token_profiles ∧
    symbol <$> token_profiles = ["USDC"; "JUP"; "SOL"; "stakedSOL"]%string ∧
    Forall (λ p, balance p ≠ 0%Qc) token_profiles ∧
    NoDup (symbol <$> token_profiles).
Proof.
  intros items.
  assert (H1 : NoDup (filter (λ s, s ≠ "Unknown"%string) (asset_symbol <$> items))).
  { refine (bool_decide_unpack _ _). by vm_compute. }
  assert (H2 : "SOL"%string ∉ asset_symbol <$> items).
  { refine (bool_decide_unpack _ _). by vm_compute. }
  assert (H3 : "stakedSOL"%string ∉ asset_symbol <$> items).
  { refine (bool_decide_unpack _ _). by vm_compute. }
  split; [exact H1|]. split; [exact H2|]. split; [exact H3|].
  destruct (fetch_token_profiles_das (Ok (assets_of items 2500000000)) (Ok (stake_of [7])))
    as [token_profiles|e] eqn:Hrun; [|by vm_compute in Hrun].
  exists token_profiles. split; [reflexivity|].
  split.
  { apply (f_equal (λ r, match r with Ok l => symbol <$> l | Raise _ => [] end)) in Hrun.
    rewrite <- Hrun. by vm_compute. }
  destruct (fetch_token_profiles_das_no_zero_balance _ _ _ Hrun) as [Hnz Hnd].
  split; [exact Hnz|]. exact (Hnd _ eq_refl H1 H2 H3).
Defined.

(** Two upstream assets named [USDC] (two mints with one symbol) give two
    entries named [USDC]. *)
Lemma fetch_token_profiles_das_duplicate_symbols :
  ∃ token_profiles,
    fetch_token_profiles_das
      (Ok (assets_of [token "USDC" 6 1000000; token "USDC" 6 2000000] 0))
      (Raise "Request failed")
      = Ok token_profiles ∧
    symbol <$> token_profiles = ["USDC"; "USDC"]%string ∧
    ¬ NoDup (symbol <$> token_profiles).
Proof.
  eexists. split; [by apply fetch_token_profiles_das_unfold|].
  assert (Hsym : symbol <$> omap profile_of_asset
             (upstream_items (assets_of [token "USDC" 6 1000000; token "USDC" 6 2000000] 0))
             ++ sol_profile
                  (native_lamports
                     (assets_of [token "USDC" 6 1000000; token "USDC" 6 2000000] 0))
             ++ staked_profile 0%Qc
           = ["USDC"; "USDC"]%string) by (by vm_compute).
  split; [exact Hsym|].
  rewrite Hsym. intros Hnd. apply NoDup_cons in Hnd as [Hin _].
  apply Hin. by left.
Qed.

Lemma fetch_token_profiles_das_order_witness :
  fetch_token_profiles_das (Ok (assets_of [] 2500000000)) (Ok (stake_of []))
  = Ok [{| symbol := "SOL"; balance := Q2Qc (5 # 2); txVolume := "" |}].
Proof.
  destruct (fetch_token_profiles_das_order (assets_of [] 0) (Raise "Request failed"))
    as (_ & _ & _ & _ & _ & _ & _ & _ & Hscenario).
  apply Hscenario. right. reflexivity.
Defined.

(** ** Statistics *)

Section Counting.
Implicit Types (c : gmap string nat) (k t : string) (keys : list string).

Lemma counter_total_bump c k : counter_total (bump c k) = S (counter_total c).
Proof.
  unfold counter_total, bump.
  destruct (c !! k) as [n|] eqn:Hk; simpl.
  - rewrite <- insert_delete_eq.
    rewrite map_fold_insert_L; [|intros; lia|apply lookup_delete_eq].
    rewrite (map_fold_delete_L _ _ k n c); [|intros; lia|done].
    lia.
  - by rewrite map_fold_insert_L; [|intros; lia|done].
Qed.

Lemma lookup_bump c k t :
  default 0%nat (bump c k !! t) =
    (default 0%nat (c !! t) + if decide (k = t) then 1 else 0)%nat.
Proof. unfold bump. rewrite lookup_insert. case_decide; subst; simpl; lia. Qed.

Lemma Counter_foldl_total c keys :
  counter_total (foldl bump c keys) = (counter_total c + length keys)%nat.
Proof.
  revert c. induction keys as [|k keys IH]; intros c; simpl; [lia|].
  rewrite IH, counter_total_bump. lia.
Qed.

Lemma Counter_foldl_lookup c keys t :
  default 0%nat (foldl bump c keys !! t) =
    (default 0%nat (c !! t) + length (filter (λ k, k = t) keys))%nat.
Proof.
  revert c. induction keys as [|k keys IH]; intros c; simpl; [lia|].
  rewrite IH, lookup_bump, filter_cons. case_decide; simpl; lia.
Qed.

(** A counter holds no entry at 0. *)
Lemma Counter_foldl_positive c keys t n :
  (∀ t n, c !! t = Some n → (0 < n)%nat) →
  foldl bump c keys !! t = Some n → (0 < n)%nat.
Proof.
  revert c. induction keys as [|k keys IH]; intros c Hc; simpl; [apply Hc|].
  apply IH. intros t' n'. unfold bump. rewrite lookup_insert.
  case_decide; [intros [= <-]; lia|apply Hc].
Qed.

Lemma filter_map_length {A} (f : A → string) (l : list A) t :
  length (filter (λ k, k = t) (map f l)) = length (filter (λ x, f x = t) l).
Proof.
  induction l as [|x l IH]; [done|].
  simpl. rewrite !filter_cons. case_decide; simpl; lia.
Qed.

(** C7.  For every list of parsed records, the type distribution gives each
    type [t] the number of records whose type (["UNKNOWN"] when the record has
    none) is [t], it has an entry only for types that occur, and its counts sum
    to the number of records. *)
Theorem type_distribution_counts (parsed : list parsed_tx) :
  (∀ t, default 0%nat (type_distribution parsed !! t) =
        length (filter (λ r, default "UNKNOWN"%string (type r) = t) parsed)) ∧
  (∀ t n, type_distribution parsed !! t = Some n → (0 < n)%nat) ∧
  counter_total (type_distribution parsed) = length parsed.
Proof.
  unfold type_distribution, Counter. split; [|split].
  - intros t. by rewrite Counter_foldl_lookup, lookup_empty, filter_map_length.
  - intros t n. apply Counter_foldl_positive. intros ??. by rewrite lookup_empty.
  - rewrite Counter_foldl_total. unfold counter_total.
    by rewrite map_fold_empty, length_map.
Qed.

End Counting.

Lemma type_distribution_counts_witness :
  let parsed := [swap; transfer_rec; swap; untyped; swap] in
  type_distribution parsed !! "SWAP"%string = Some 3%nat ∧
  type_distribution parsed !! "UNKNOWN"%string = Some 1%nat ∧
  type_distribution parsed !! "BURN"%string = None ∧
  counter_total (type_distribution parsed) = 5%nat.
Proof.
  intros parsed.
  destruct (type_distribution_counts parsed) as (_ & _ & Hsum).
  split; [reflexivity|]. split; [reflexivity|]. split; [reflexivity|]. exact Hsum.
Defined.

Section Ratios.
Implicit Types (parsed : list parsed_tx) (p q : profile).

Lemma volume_ratio_pos n total :
  total ≠ 0%nat →
  volume_ratio n total =
    Ok (format_percent (Qc_of_Z (Z.of_nat n) / Qc_of_Z (Z.of_nat total))%Qc).
Proof.
  intros Ht. destruct total as [|m]; [done|].
  unfold volume_ratio, py_div.
  destruct (Z.of_nat (S m) =? 0) eqn:H0; [apply Z.eqb_eq in H0; lia|done].
Qed.



End Ratios.


(** ** The command loop *)

Section Session.
Implicit Types (up : upstream) (line addr e : string) (inputs : list string).

Lemma analyse_pagination_failure up addr e :
  get_transactions (history up addr) 500 = Raise e → analyse up addr = Raise e.
Proof. intros H. unfold analyse. by rewrite H. Qed.

Lemma analyse_assets_failure up addr e r :
  get_transactions (history up addr) 500 = Ok r →
  assets up addr = Raise e →
  analyse up addr = Raise e.
Proof. intros H1 H2. unfold analyse. rewrite H1, H2. by destruct r. Qed.

(** C9 (as amended).  When pagination or the asset request fails for the
    address just read, the analysis of that address raises, nothing is
    reported for it, and the error leaves [main]'s loop: the session ends with
    that error whatever lines were still to be read, and no later address is
    asked for. *)
Theorem main_terminates_on_acquisition_failure up line inputs e :
  lower (strip line) ∉ ["exit"; "quit"]%string →
  (get_transactions (history up (strip line)) 500 = Raise e ∨
   ∃ r, get_transactions (history up (strip line)) 500 = Ok r ∧
        assets up (strip line) = Raise e) →
  analyse up (strip line) = Raise e ∧
  main_loop up (line :: inputs) = ([AskAddress], Raise e) ∧
  main up (line :: inputs) = ([Banner; AskAddress], Raise e).
Proof.
  intros Hq Hfail.
  assert (Ha : analyse up (strip line) = Raise e).
  { destruct Hfail as [H|(r & H1 & H2)];
      eauto using analyse_pagination_failure, analyse_assets_failure. }
  assert (Hl : main_loop up (line :: inputs) = ([AskAddress], Raise e)).
  { simpl. rewrite bool_decide_eq_false_2 by done. by rewrite Ha. }
  split; [done|]. split; [done|]. unfold main. by rewrite Hl.
Qed.

End Session.

Lemma main_terminates_on_acquisition_failure_witness :
  (lower (strip " A ") ∉ ["exit"; "quit"]%string) ∧
  get_transactions (history flaky_upstream (strip " A ")) 500
    = Raise "Request failed: timed out"%string ∧
  main flaky_upstream [" A "; "B"; "n"; "exit"]%string
    = ([Banner; AskAddress], Raise "Request failed: timed out"%string).
Proof.
  assert (H : lower (strip " A ") ∉ ["exit"; "quit"]%string).
  { rewrite !not_elem_of_cons. repeat split; [| |apply not_elem_of_nil]; by vm_compute. }
  split; [exact H|]. split; [reflexivity|].
  exact (proj2 (proj2 (main_terminates_on_acquisition_failure flaky_upstream " A "%string
           ["B"; "n"; "exit"]%string "Request failed: timed out"%string H
           (or_introl eq_refl)))).
Defined.

(** The history of [A] cannot be fetched and that of [B] can: a session asked
    for [A] then [B] ends on [A]'s error without a report, while the same
    session without [A] reports on [B] and exits normally. *)
Lemma main_stops_instead_of_continuing :
  main flaky_upstream ["A"; "B"; "n"; "exit"]%string
    = ([Banner; AskAddress], Raise "Request failed: timed out"%string) ∧
  ∃ st, main flaky_upstream ["B"; "n"; "exit"]%string
    = ([Banner; AskAddress; Report "B" st; AskSave; AskAddress], Ok ()).
Proof. split; [reflexivity|]. eexists. vm_compute. reflexivity. Qed.

(** ** Bounds on what is analysed *)

Section Bounds.
Implicit Types (t : tx) (txs : list tx) (sigs : list string).







End Bounds.



(** * Further properties *)

(** ** Outcomes of the request client *)

Section RetryOutcomes.
Context {A : Type} (http : nat → outcome A).

Lemma failed_run_0 s : failed_run s 0 = [Request s].
Proof. unfold failed_run. simpl. by rewrite Nat.add_0_r. Qed.

Lemma failed_run_S s d : failed_run s (S d) = Request s :: Sleep 1 :: failed_run (S s) d.
Proof.
  unfold failed_run. change (seq s (S d)) with (s :: seq (S s) d).
  simpl. by rewrite Nat.add_succ_r.
Qed.

Lemma sleeps_failed_run s d : sleeps (failed_run s d) = Z.of_nat d.
Proof.
  revert s. induction d as [|d IH]; intros s.
  - by rewrite failed_run_0.
  - rewrite failed_run_S. unfold sleeps in *. cbn [omap list_omap foldr].
    rewrite IH. lia.
Qed.

(** A run of the loop over the attempts [s, ..., retries - 1] stops at some
    attempt [s + d]: every attempt before it failed, and it either succeeded
    there or failed there as the last attempt. *)
Lemma fetch_json_loop_shape retries s m evs r :
  (s + m)%nat = Z.to_nat retries →
  fetch_json_loop http retries (seq s m) = (evs, r) →
  (m = 0%nat ∧ evs = [] ∧ r = Ok None) ∨
  ∃ d, (d < m)%nat ∧ evs = failed_run s d ∧
       (∀ j, (s ≤ j < s + d)%nat → ∃ e, http j = Raise e) ∧
       ((∃ doc, http (s + d)%nat = Ok doc ∧ r = Ok (Some doc)) ∨
        (∃ e, http (s + d)%nat = Raise e ∧ r = Raise ("Request failed: " ++ e)%string ∧
              S d = m)).
Proof.
  revert s evs r. induction m as [|m IH]; intros s evs r Hsm.
  - simpl. intros [= <- <-]. by left.
  - change (seq s (S m)) with (s :: seq (S s) m). cbn [fetch_json_loop].
    intros Hrun. right. destruct (http s) as [doc|e] eqn:Hs.
    + injection Hrun as <- <-. exists 0%nat. rewrite Nat.add_0_r, failed_run_0.
      split; [lia|]. split; [done|]. split; [intros; lia|]. left. eauto.
    + destruct (Z.of_nat s =? retries - 1) eqn:Hlast.
      * apply Z.eqb_eq in Hlast. injection Hrun as <- <-.
        exists 0%nat. rewrite Nat.add_0_r, failed_run_0.
        split; [lia|]. split; [done|]. split; [intros; lia|].
        right. exists e. split; [done|]. split; [done|]. lia.
      * apply Z.eqb_neq in Hlast.
        destruct (fetch_json_loop http retries (seq (S s) m)) as [evs' r'] eqn:Hrest.
        injection Hrun as <- <-.
        apply IH in Hrest as [(-> & _)|(d & Hd & -> & Hfail & Hend)]; [lia| |lia].
        exists (S d). split; [lia|]. split; [by rewrite failed_run_S|].
        rewrite Nat.add_succ_r. split.
        { intros j Hj. destruct (decide (j = s)) as [->|]; [eauto|]. apply Hfail. lia. }
        destruct Hend as [(doc & Hdoc & ->)|(e' & He' & -> & <-)]; [left|right]; eauto.
Qed.

(** X1.  When attempt [k] (below [retries]) is the first to succeed,
    [fetch_json] returns its document after exactly the attempts [0 .. k],
    having slept one second after each failure, [k] seconds in all; no attempt
    is made after the success. *)
Theorem fetch_json_succeeds_after_failures retries doc k :
  (k < Z.to_nat retries)%nat →
  (∀ j, (j < k)%nat → ∃ e, http j = Raise e) →
  http k = Ok doc →
  fetch_json http retries = (failed_run 0 k, Ok (Some doc)) ∧
  requests (fetch_json http retries).1 = seq 0 (S k) ∧
  sleeps (fetch_json http retries).1 = Z.of_nat k.
Proof.
  intros Hk Hfail Hok.
  destruct (fetch_json http retries) as [evs r] eqn:Hrun. unfold fetch_json in Hrun.
  apply fetch_json_loop_shape in Hrun as [(Hm & _)|(d & Hd & -> & Hbefore & Hend)];
    [lia| |done].
  simpl in *.
  assert (d = k) as ->.
  { destruct (Nat.lt_trichotomy d k) as [Hlt|[->|Hgt]]; [|done|].
    - destruct (Hfail d Hlt) as [e He].
      destruct Hend as [(doc' & Hdoc & _)|(e' & _ & _ & Hlast)]; [congruence|lia].
    - destruct (Hbefore k) as [e He]; [lia|congruence]. }
  destruct Hend as [(doc' & Hdoc & ->)|(e' & He' & _)]; [|congruence].
  rewrite Hok in Hdoc. injection Hdoc as <-.
  by rewrite requests_failed_run, sleeps_failed_run.
Qed.

(** X2.  Whatever the HTTP layer answers, the attempts of [fetch_json] are
    numbered [0, 1, 2, ...] without gap, there are at most [retries] of them
    and at least one when [retries >= 1], and the time slept is one second per
    attempt but the last. *)
Theorem fetch_json_attempts_bounded retries :
  let evs := (fetch_json http retries).1 in
  requests evs = seq 0 (length (requests evs)) ∧
  (length (requests evs) ≤ Z.to_nat retries)%nat ∧
  (1 ≤ retries → (1 ≤ length (requests evs))%nat) ∧
  sleeps evs = Z.max 0 (Z.of_nat (length (requests evs)) - 1).
Proof.
  destruct (fetch_json http retries) as [evs r] eqn:Hrun. simpl.
  unfold fetch_json in Hrun.
  apply fetch_json_loop_shape in Hrun as [(Hm & -> & _)|(d & Hd & -> & _)]; [| |done].
  - change (requests []) with (@nil nat). change (sleeps []) with 0. simpl length.
    split; [done|]. split; [lia|]. split; lia.
  - rewrite requests_failed_run, sleeps_failed_run, length_seq.
    split; [done|]. split; [lia|]. split; lia.
Qed.

(** X3.  [fetch_json] raises only when [retries >= 1] and every one of the
    [retries] attempts failed; the message is ["Request failed: "] followed by
    the text of the failure of the last attempt, and all [retries] attempts
    were made. *)
Theorem fetch_json_raise_inversion retries evs m :
  fetch_json http retries = (evs, Raise m) →
  1 ≤ retries ∧
  (∀ j, (j < Z.to_nat retries)%nat → ∃ e, http j = Raise e) ∧
  (∃ e, http (Z.to_nat retries - 1)%nat = Raise e ∧ m = ("Request failed: " ++ e)%string) ∧
  requests evs = seq 0 (Z.to_nat retries).
Proof.
  unfold fetch_json. intros Hrun.
  apply fetch_json_loop_shape in Hrun as [(_ & _ & ?)|(d & Hd & -> & Hbefore & Hend)];
    [done| |done].
  destruct Hend as [(doc & _ & ?)|(e & He & [= ->] & Hlast)]; [done|].
  simpl in *. rewrite <- Hlast. split; [lia|]. split.
  { intros j Hj. destruct (decide (j = d)) as [->|]; [eauto|]. apply Hbefore. lia. }
  split.
  { exists e. split; [|done]. by replace (S d - 1)%nat with d by lia. }
  by rewrite requests_failed_run.
Qed.

(** X4.  [fetch_json] falls off the end of its loop and returns [None]
    exactly when [retries <= 0]: with at least one attempt allowed it returns a
    document or raises. *)
Theorem fetch_json_none_iff retries :
  (fetch_json http retries).2 = Ok None ↔ retries ≤ 0.
Proof.
  split.
  - destruct (fetch_json http retries) as [evs r] eqn:Hrun. simpl. intros ->.
    unfold fetch_json in Hrun.
    apply fetch_json_loop_shape in Hrun as [(Hm & _)|(d & Hd & _ & _ & Hend)]; [lia| |done].
    destruct Hend as [(doc & _ & ?)|(e & _ & ? & _)]; done.
  - intros Hr. unfold fetch_json. by replace (Z.to_nat retries) with 0%nat by lia.
Qed.

End RetryOutcomes.

Lemma fetch_json_succeeds_after_failures_witness :
  (2 < Z.to_nat 3)%nat ∧
  (∀ j, (j < 2)%nat → ∃ e, recovering_http j = Raise e) ∧
  fetch_json recovering_http 3 =
    ([Request 0; Sleep 1; Request 1; Sleep 1; Request 2], Ok (Some "document"%string)).
Proof.
  assert (H1 : (2 < Z.to_nat 3)%nat) by (simpl; lia).
  assert (H2 : ∀ j, (j < 2)%nat → ∃ e, recovering_http j = Raise e).
  { intros [|[|j]] Hj; [by eexists|by eexists|lia]. }
  split; [exact H1|]. split; [exact H2|].
  exact (proj1 (fetch_json_succeeds_after_failures recovering_http 3 "document"%string 2
                  H1 H2 eq_refl)).
Defined.

Lemma fetch_json_raise_inversion_witness :
  fetch_json recovering_http 2 =
    ([Request 0; Sleep 1; Request 1], Raise "Request failed: 503 Service Unavailable"%string) ∧
  requests [Request 0; Sleep 1; Request 1] = seq 0 (Z.to_nat 2).
Proof.
  assert (H : fetch_json recovering_http 2 =
    ([Request 0; Sleep 1; Request 1],
     Raise "Request failed: 503 Service Unavailable"%string)) by reflexivity.
  split; [exact H|].
  exact (proj2 (proj2 (proj2 (fetch_json_raise_inversion recovering_http 2 _ _ H)))).
Defined.

(** ** Where pagination stops *)

(** The [k]-th element satisfying [P] splits the list around it. *)
Lemma filter_split_at {A} (P : A → Prop) `{!∀ x, Decision (P x)} (l : list A) k :
  (1 ≤ k ≤ length (filter P l))%nat →
  ∃ l1 x l2, l = l1 ++ x :: l2 ∧ P x ∧ (length (filter P l1) + 1 = k)%nat.
Proof.
  revert k. induction l as [|y l IH]; intros k; [simpl; lia|].
  rewrite filter_cons. case_decide as Hy.
  - simpl. intros Hk. destruct (decide (k = 1%nat)) as [->|Hne].
    + by exists [], y, l.
    + destruct (IH (k - 1)%nat) as (l1 & x & l2 & -> & Hx & Hlen); [lia|].
      exists (y :: l1), x, l2. rewrite filter_cons, decide_True by done.
      simpl. split; [done|]. split; [done|]. lia.
  - intros Hk. destruct (IH k Hk) as (l1 & x & l2 & -> & Hx & Hlen).
    exists (y :: l1), x, l2. by rewrite filter_cons, decide_False by done.
Qed.

Lemma served_cons data pages : served (Ok data :: pages) = data ++ served pages.
Proof. done. Qed.

Section PaginatorStops.
Implicit Types (t : tx) (data pre post : list tx) (limit : Z).

Abbreviation normal := (λ t : tx, SMALL_TX_THRESHOLD ≤ lam t).
Abbreviation small := (λ t : tx, lam t < SMALL_TX_THRESHOLD).

Lemma scan_page_nonpositive_limit limit data small_count :
  limit ≤ 0 →
  (length (scan_page limit data [] small_count).1 ≤ 1)%nat.
Proof.
  intros Hl. revert small_count.
  induction data as [|t data IH]; intros small_count; simpl; [lia|].
  destruct (is_small t); [apply IH|].
  destruct (limit <=? _) eqn:Hle; [simpl; lia|]. apply Z.leb_gt in Hle. simpl in Hle. lia.
Qed.

Lemma scan_page_below_target limit data normal_txs small_count :
  Z.of_nat (length normal_txs + length (filter normal data)) < limit →
  scan_page limit data normal_txs small_count =
    (normal_txs ++ filter normal data, (small_count + length (filter small data))%nat).
Proof.
  revert normal_txs small_count.
  induction data as [|t data IH]; intros normal_txs small_count; simpl.
  - intros _. rewrite app_nil_r. f_equal. lia.
  - rewrite !filter_cons. destruct (is_small t) eqn:Ht.
    + apply is_small_true in Ht. rewrite decide_False by lia. rewrite decide_True by done.
      intros Hlt. rewrite IH by done. simpl. f_equal. lia.
    + apply is_small_false in Ht. rewrite decide_True by done. rewrite decide_False by lia.
      simpl. intros Hlt. rewrite length_app. simpl.
      destruct (limit <=? _) eqn:Hle; [apply Z.leb_le in Hle; lia|].
      rewrite IH by (rewrite length_app; simpl; lia). by rewrite <- app_assoc.
Qed.

Lemma get_transactions_loop_exhausts pages limit normal_txs small_count before :
  Forall (λ p, ∃ data sig, p = Ok data ∧ data ≠ [] ∧
                 truthy_sig (last data ≫= signature) = Some sig) pages →
  Z.of_nat (length normal_txs + length (filter normal (served pages))) < limit →
  get_transactions_loop pages limit normal_txs small_count before =
    Ok (normal_txs ++ filter normal (served pages),
        (small_count + length (filter small (served pages)))%nat).
Proof.
  intros Hpages. revert normal_txs small_count before.
  induction Hpages as [|p pages (data & sig & -> & Hdata & Hsig) _ IH];
    intros normal_txs small_count before Hlt.
  - simpl. rewrite app_nil_r. do 2 f_equal. lia.
  - rewrite served_cons in *. rewrite filter_app, length_app in Hlt.
    rewrite get_transactions_loop_page by done.
    rewrite scan_page_below_target by lia. cbn beta iota zeta.
    destruct (limit <=? _) eqn:Hle.
    { apply Z.leb_le in Hle. rewrite length_app in Hle. lia. }
    rewrite Hsig, IH by (rewrite length_app; lia).
    rewrite !filter_app, !length_app, <- app_assoc. do 2 f_equal. lia.
Qed.

Lemma lam_transfers_nonneg (l : list transfer) :
  0 ≤ foldr Z.add 0 (map (λ x, Z.abs (default 0 (amount x))) l).
Proof. induction l as [|x l IH]; simpl; lia. Qed.

(** X5.  [get_transactions] never returns more normal transactions than the
    target, for a target of 1 or more; with a target of 0 or less it returns
    at most one. *)
Theorem get_transactions_never_exceeds_limit pages limit normal_txs small_count :
  get_transactions pages limit = Ok (normal_txs, small_count) →
  Z.of_nat (length normal_txs) ≤ Z.max limit 1.
Proof.
  intros H. destruct (decide (1 ≤ limit)) as [Hpos|Hneg].
  - pose proof (get_transactions_loop_bounded _ limit [] 0%nat None _ ltac:(simpl; lia) H).
    simpl in *. lia.
  - unfold get_transactions in H. destruct pages as [|[data|e] pages]; simpl in H.
    + injection H as <- <-. simpl. lia.
    + destruct data as [|t0 data0]; [injection H as <- <-; simpl; lia|].
      pose proof (scan_page_nonpositive_limit limit (t0 :: data0) 0%nat ltac:(lia)) as Hb.
      destruct (scan_page limit (t0 :: data0) [] 0%nat) as [n' s'].
      simpl in Hb.
      destruct (limit <=? _) eqn:Hle; [|apply Z.leb_gt in Hle; lia].
      injection H as <- <-. lia.
    + done.
Qed.

(** X6.  When the first page alone holds [limit] normal transactions or more
    ([limit >= 1]), [get_transactions] returns the first [limit] normal
    transactions of that page, in page order, whatever the later pages are:
    they are not fetched, so a failure among them goes unnoticed. *)
Theorem get_transactions_first_page_suffices data rest limit :
  1 ≤ limit →
  limit ≤ Z.of_nat (length (filter normal data)) →
  ∃ small_count,
    get_transactions (Ok data :: rest) limit
      = Ok (take (Z.to_nat limit) (filter normal data), small_count) ∧
    (small_count ≤ length (filter small data))%nat.
Proof.
  intros H1 Hlim.
  destruct (filter_split_at normal data (Z.to_nat limit))
    as (pre & t & post & -> & Ht & Hlen); [lia|].
  exists (length (filter small pre)). unfold get_transactions.
  rewrite get_transactions_loop_page by (by destruct pre).
  rewrite scan_page_target; [|done|simpl; lia].
  simpl. rewrite length_app. simpl.
  destruct (limit <=? _) eqn:Hl; [|apply Z.leb_gt in Hl; lia].
  split.
  - f_equal. f_equal. rewrite filter_app, filter_cons, decide_True by done.
    replace (Z.to_nat limit) with (length (filter normal pre ++ [t]))
      by (rewrite length_app; simpl; lia).
    rewrite (cons_middle t (filter normal pre) (filter normal post)), app_assoc.
    by rewrite take_app_length.
  - rewrite filter_app, length_app. lia.
Qed.

(** X7.  A page ends the pagination, whatever pages would follow, when it is
    empty, when its last transaction has no signature or an empty one, or when
    the target was already reached before it. *)
Theorem get_transactions_last_page data rest limit normal_txs small_count before :
  data = [] ∨ truthy_sig (last data ≫= signature) = None ∨
    limit ≤ Z.of_nat (length normal_txs) →
  get_transactions_loop (Ok data :: rest) limit normal_txs small_count before
    = get_transactions_loop [Ok data] limit normal_txs small_count before.
Proof.
  intros Hstop. destruct (decide (data = [])) as [->|Hdata]; [done|].
  rewrite !get_transactions_loop_page by done.
  pose proof (scan_page_observed limit data normal_txs small_count) as Hscan.
  destruct (scan_page limit data normal_txs small_count) as [n' s'].
  injection Hscan as -> ->.
  destruct (limit <=? _) eqn:Hle; [done|]. apply Z.leb_gt in Hle.
  destruct Hstop as [?|[->|Hlim]]; [done|done|].
  rewrite length_app in Hle. lia.
Qed.

(** X8.  When every page served is non-empty and ends in a signed transaction,
    and all of them together hold fewer normal transactions than the target,
    [get_transactions] reads them all: it returns every normal transaction
    served, once and in order, and counts every small one. *)
Theorem get_transactions_exhausts_history pages limit :
  Forall (λ p, ∃ data sig, p = Ok data ∧ data ≠ [] ∧
                 truthy_sig (last data ≫= signature) = Some sig) pages →
  Z.of_nat (length (filter normal (served pages))) < limit →
  get_transactions pages limit =
    Ok (filter normal (served pages), length (filter small (served pages))).
Proof.
  intros Hpages Hlt. unfold get_transactions.
  by rewrite get_transactions_loop_exhausts.
Qed.

(** X9.  [get_transactions] raises only the error of a page request, unchanged,
    and only when every page before it was fetched and non-empty; what was
    collected from those pages is lost with it. *)
Theorem get_transactions_raise_inversion pages limit e :
  get_transactions pages limit = Raise e →
  ∃ k, pages !! k = Some (Raise e) ∧
       ∀ j, (j < k)%nat → ∃ data, pages !! j = Some (Ok data) ∧ data ≠ [].
Proof.
  unfold get_transactions.
  cut (∀ normal_txs small_count before,
         get_transactions_loop pages limit normal_txs small_count before = Raise e →
         ∃ k, pages !! k = Some (Raise e) ∧
              ∀ j, (j < k)%nat → ∃ data, pages !! j = Some (Ok data) ∧ data ≠ []).
  { intros Hloop. apply Hloop. }
  induction pages as [|[data|e'] pages IH]; intros n s b; [done| |].
  - destruct (decide (data = [])) as [->|Hdata]; [done|].
    rewrite get_transactions_loop_page by done.
    destruct (scan_page limit data n s) as [n' s'].
    destruct (limit <=? _); [done|]. destruct (truthy_sig _); [|done].
    intros (k & Hk & Hbefore)%IH. exists (S k). split; [done|].
    intros [|j] Hj; [eauto|]. apply Hbefore. lia.
  - simpl. intros [= ->]. exists 0%nat. split; [done|]. intros; lia.
Qed.

(** X10.  The amount a transaction moves is never negative and does not
    depend on the direction of its transfers: flipping the sign of every
    amount leaves it, and the classification, unchanged.  A transaction
    without native transfers moves nothing and is small. *)
Theorem lam_ignores_direction t :
  0 ≤ lam t ∧ lam (flip_amounts t) = lam t ∧ is_small (flip_amounts t) = is_small t ∧
  (nativeTransfers t = None → is_small t = true).
Proof.
  assert (Hflip : lam (flip_amounts t) = lam t).
  { unfold lam, flip_amounts. simpl. destruct (nativeTransfers t) as [l|]; simpl; [|done].
    induction l as [|x l IH]; simpl; [done|]. rewrite IH. f_equal.
    destruct (amount x); simpl; lia. }
  split; [apply lam_transfers_nonneg|]. split; [done|].
  split; [unfold is_small; by rewrite Hflip|].
  intros Hnone. unfold is_small, lam. by rewrite Hnone.
Qed.

End PaginatorStops.

Lemma get_transactions_never_exceeds_limit_witness :
  get_transactions [Ok [tx_big; tx_dust; tx_big; tx_big]] 2 = Ok ([tx_big; tx_big], 1%nat) ∧
  Z.of_nat (length [tx_big; tx_big]) ≤ Z.max 2 1.
Proof.
  assert (H : get_transactions [Ok [tx_big; tx_dust; tx_big; tx_big]] 2
              = Ok ([tx_big; tx_big], 1%nat)) by reflexivity.
  split; [exact H|]. exact (get_transactions_never_exceeds_limit _ _ _ _ H).
Defined.

Lemma get_transactions_first_page_suffices_witness :
  1 ≤ 2 ∧
  2 ≤ Z.of_nat (length (filter (λ t, SMALL_TX_THRESHOLD ≤ lam t)
                          [tx_dust; tx_big; tx_dust; tx_big; tx_dust; tx_big])) ∧
  ∃ small_count,
    get_transactions
      [Ok [tx_dust; tx_big; tx_dust; tx_big; tx_dust; tx_big]; Raise "never requested"] 2
    = Ok ([tx_big; tx_big], small_count).
Proof.
  assert (H1 : 1 ≤ 2) by lia.
  assert (H2 : 2 ≤ Z.of_nat (length (filter (λ t, SMALL_TX_THRESHOLD ≤ lam t)
                 [tx_dust; tx_big; tx_dust; tx_big; tx_dust; tx_big]))).
  { vm_compute. discriminate. }
  split; [exact H1|]. split; [exact H2|].
  destruct (get_transactions_first_page_suffices
              [tx_dust; tx_big; tx_dust; tx_big; tx_dust; tx_big]
              [Raise "never requested"%string] 2 H1 H2) as (small_count & Hrun & _).
  exists small_count. exact Hrun.
Defined.

Lemma get_transactions_last_page_witness :
  truthy_sig (last [tx_big; tx_unsigned] ≫= signature) = None ∧
  get_transactions_loop [Ok [tx_big; tx_unsigned]; Raise "never requested"] 500 [] 0%nat None
    = Ok ([tx_big; tx_unsigned], 0%nat).
Proof.
  assert (H : truthy_sig (last [tx_big; tx_unsigned] ≫= signature) = None) by reflexivity.
  split; [exact H|].
  exact (get_transactions_last_page [tx_big; tx_unsigned] [Raise "never requested"%string]
           500 [] 0%nat None (or_intror (or_introl H))).
Defined.

Lemma get_transactions_exhausts_history_witness :
  get_transactions [Ok [tx_big; tx_dust]; Ok [tx_token_only; tx_big]] 500
    = Ok ([tx_big; tx_big], 2%nat).
Proof.
  apply (get_transactions_exhausts_history [Ok [tx_big; tx_dust]; Ok [tx_token_only; tx_big]]).
  - repeat (apply Forall_cons; split;
              [eexists _, _; (split; [reflexivity|]); split; [done|reflexivity]|]).
    apply Forall_nil_2.
  - vm_compute. reflexivity.
Defined.

Lemma get_transactions_raise_inversion_witness :
  get_transactions [Ok [tx_dust]; Raise "Request failed: timed out"; Ok [tx_big]] 500
    = Raise "Request failed: timed out"%string ∧
  ∃ k, [Ok [tx_dust]; Raise "Request failed: timed out"%string; Ok [tx_big]] !! k
         = Some (Raise "Request failed: timed out"%string).
Proof.
  assert (H : get_transactions
                [Ok [tx_dust]; Raise "Request failed: timed out"%string; Ok [tx_big]] 500
              = Raise "Request failed: timed out"%string) by reflexivity.
  split; [exact H|].
  destruct (get_transactions_raise_inversion _ _ _ H) as (k & Hk & _).
  exists k. exact Hk.
Defined.

Lemma lam_ignores_direction_witness :
  lam tx_big = 200000000 ∧ lam (flip_amounts tx_big) = lam tx_big ∧
  is_small tx_token_only = true.
Proof.
  split; [reflexivity|].
  destruct (lam_ignores_direction tx_big) as (_ & Hflip & _).
  destruct (lam_ignores_direction tx_token_only) as (_ & _ & _ & Hnone).
  split; [exact Hflip|]. exact (Hnone eq_refl).
Defined.

(** ** More on asset profiles *)

Section ProfilesMore.
Implicit Types (items : list asset) (p : profile).

Lemma pow10_pos d : (0 < pow10 d)%Qc.
Proof.
  unfold pow10, Qclt. cbn [Qcanon.this Q2Qc]. rewrite !Qred_correct.
  apply Qpower_0_lt. reflexivity.
Qed.

Lemma Qc_of_Z_pos z : 0 < z → (0 < Qc_of_Z z)%Qc.
Proof. intros Hz. unfold Qclt, Qc_of_Z. simpl. unfold Qlt. simpl. lia. Qed.

Lemma Qcdiv_pos (x y : Qc) : (0 < x)%Qc → (0 < y)%Qc → (0 < x / y)%Qc.
Proof.
  intros Hx Hy. destruct (Qcle_lt_or_eq 0 (x / y)) as [?|Heq]; [|done|].
  - apply Qcdiv_nonneg; [by apply Qclt_le_weak|done].
  - symmetry in Heq. apply Qcdiv_zero in Heq.
    + subst. by destruct (Qclt_not_eq _ _ Hx).
    + intros ->. by destruct (Qclt_not_eq _ _ Hy).
Qed.

Lemma Qc_of_Z_div_pos_inv (a b : Z) : 0 < b → (0 < Qc_of_Z a / Qc_of_Z b)%Qc → 0 < a.
Proof.
  intros Hb H. destruct (decide (0 < a)) as [|Hn]; [done|].
  exfalso. unfold Qclt in H. rewrite Qc_of_Z_div_this in H. simpl in H.
  apply (Qlt_not_le _ _ H). apply Qle_shift_div_r; [unfold Qlt; simpl; lia|].
  unfold Qle. simpl. lia.
Qed.

Lemma staked_profile_of_sum staked :
  staked_profile (Qc_of_Z staked / Qc_1e9)%Qc =
    if decide (0 < staked)
    then [{| symbol := "stakedSOL"; balance := (Qc_of_Z staked / Qc_1e9)%Qc; txVolume := "" |}]
    else [].
Proof.
  unfold staked_profile. case_decide as Ht.
  - rewrite bool_decide_eq_true_2; [done|].
    apply Qcdiv_pos; [by apply Qc_of_Z_pos|apply Qc_1e9_pos].
  - rewrite bool_decide_eq_false_2; [done|].
    intros H. apply Ht. by apply (Qc_of_Z_div_pos_inv _ 1000000000).
Qed.

Lemma token_entries_wellformed items :
  Forall (λ p, symbol p ≠ "Unknown"%string ∧ txVolume p = ""%string)
    (omap profile_of_asset items).
Proof.
  induction items as [|a items IH]; [done|]. cbn [omap list_omap].
  destruct (profile_of_asset a) as [p|] eqn:Hp; [|done].
  constructor; [|done].
  pose proof Hp as (Hs & Hk & _)%profile_of_asset_Some.
  split; [congruence|].
  unfold profile_of_asset in Hp. repeat case_match; try done. by injection Hp as <-.
Qed.

Lemma omap_length_le {A B} (f : A → option B) (l : list A) :
  (length (omap f l) ≤ length l)%nat.
Proof. induction l as [|x l IH]; [done|]. cbn [omap list_omap]. destruct (f x); simpl; lia. Qed.

Lemma token_balances_positive items :
  Forall (λ a, 0 ≤ asset_raw_balance a) items →
  Forall (λ p, (0 < balance p)%Qc) (omap profile_of_asset items).
Proof.
  induction 1 as [|a items Ha _ IH]; [done|]. cbn [omap list_omap].
  destruct (profile_of_asset a) as [p|] eqn:Hp; [|done].
  constructor; [|done].
  unfold profile_of_asset in Hp.
  destruct (String.eqb _ _); [done|].
  destruct (bool_decide _) eqn:Hz; [done|]. apply bool_decide_eq_false in Hz.
  injection Hp as <-. simpl.
  destruct (Qcle_lt_or_eq 0 (token_balance (default TokenInfo.empty (token_info a))))
    as [?|Heq]; [|done|by destruct Hz].
  unfold token_balance. apply Qcdiv_nonneg; [by apply Qc_of_Z_nonneg|apply pow10_pos].
Qed.

(** X11.  On upstream numbers within [float_range],
    [fetch_token_profiles_das] raises exactly when the asset request raised,
    and with the same error: whatever the staking request does, it cannot make
    the builder fail. *)
Theorem fetch_token_profiles_das_raises_iff assets_answer stake_answer e :
  (∀ data, assets_answer = Ok data → float_range data) →
  fetch_token_profiles_das assets_answer stake_answer = Raise e ↔ assets_answer = Raise e.
Proof.
  intros _. destruct assets_answer as [data|e'].
  - destruct (get_stake_accounts_ok stake_answer) as [staked Hs].
    by rewrite (fetch_token_profiles_das_unfold _ _ _ Hs).
  - simpl. split; congruence.
Qed.

(** X12.  How the staking lookup shows in the profile list: a failed lookup
    adds nothing, and a successful one adds a last entry [stakedSOL] holding
    the summed lamports over 1e9 exactly when that sum is positive. *)
Theorem fetch_token_profiles_das_staking data stake_answer :
  fetch_token_profiles_das (Ok data) stake_answer =
    Ok (omap profile_of_asset (upstream_items data) ++ sol_profile (native_lamports data)
        ++ match stake_answer with
           | Raise _ => []
           | Ok sdata =>
               let staked := sum_lamports (default [] (StakeRpc.result sdata)) in
               if decide (0 < staked)
               then [{| symbol := "stakedSOL";
                        balance := (Qc_of_Z staked / Qc_1e9)%Qc; txVolume := "" |}]
               else []
           end).
Proof.
  destruct stake_answer as [sdata|e].
  - rewrite (fetch_token_profiles_das_unfold data (Ok sdata) _ eq_refl).
    by rewrite staked_profile_of_sum.
  - by rewrite (fetch_token_profiles_das_unfold data (Raise e) _ eq_refl).
Qed.

(** X13.  No entry of the returned list is named [Unknown], every entry
    leaves the builder with an empty [txVolume], and the list has at most two
    entries more than the upstream has assets. *)
Theorem fetch_token_profiles_das_entries data stake_answer token_profiles :
  fetch_token_profiles_das (Ok data) stake_answer = Ok token_profiles →
  Forall (λ p, symbol p ≠ "Unknown"%string ∧ txVolume p = ""%string) token_profiles ∧
  (length token_profiles ≤ length (upstream_items data) + 2)%nat.
Proof.
  destruct (get_stake_accounts_ok stake_answer) as [staked Hs].
  rewrite (fetch_token_profiles_das_unfold _ _ _ Hs). intros [= <-]. split.
  - rewrite !Forall_app. split; [apply token_entries_wellformed|]. split.
    + unfold sol_profile. destruct (_ =? _); repeat constructor; done.
    + unfold staked_profile. destruct (bool_decide _); repeat constructor; done.
  - rewrite !length_app. pose proof (omap_length_le profile_of_asset (upstream_items data)).
    unfold sol_profile, staked_profile.
    destruct (_ =? _), (bool_decide _); simpl; lia.
Qed.

(** X14.  When the upstream reports no negative raw token balance and no
    negative native balance, every entry of the returned list has a strictly
    positive balance, whatever the decimals. *)
Theorem fetch_token_profiles_das_positive_balances data stake_answer token_profiles :
  Forall (λ a, 0 ≤ asset_raw_balance a) (upstream_items data) →
  0 ≤ native_lamports data →
  fetch_token_profiles_das (Ok data) stake_answer = Ok token_profiles →
  Forall (λ p, (0 < balance p)%Qc) token_profiles.
Proof.
  intros Hitems Hnative.
  destruct (get_stake_accounts_ok stake_answer) as [staked Hs].
  rewrite (fetch_token_profiles_das_unfold _ _ _ Hs). intros [= <-].
  rewrite !Forall_app. split; [by apply token_balances_positive|]. split.
  - unfold sol_profile. destruct (_ =? _) eqn:Hz; [done|]. apply Z.eqb_neq in Hz.
    repeat constructor. simpl. apply Qcdiv_pos; [apply Qc_of_Z_pos; lia|apply Qc_1e9_pos].
  - unfold staked_profile. case_bool_decide; repeat constructor; done.
Qed.

End ProfilesMore.

Lemma fetch_token_profiles_das_raises_iff_witness :
  let data := assets_of [token "USDC" 6 1500000; token "BONK" (-2) 3] 2500000000 in
  float_range data ∧
  fetch_token_profiles_das (Ok data) (Raise "Request failed: timed out")
    ≠ Raise "Request failed: timed out"%string.
Proof.
  intros data.
  assert (H : float_range data).
  { split; [|vm_compute; discriminate].
    repeat (apply Forall_cons; split;
              [split; [split|]; vm_compute; discriminate|]).
    apply Forall_nil_2. }
  split; [exact H|].
  intros Hraise.
  apply (fetch_token_profiles_das_raises_iff (Ok data)
           (Raise "Request failed: timed out"%string) "Request failed: timed out"%string)
    in Hraise; [discriminate Hraise|].
  intros data' Hdata. injection Hdata as <-. exact H.
Defined.

Lemma fetch_token_profiles_das_entries_witness :
  ∃ token_profiles,
    fetch_token_profiles_das
      (Ok (assets_of [token "Unknown" 6 5; token "USDC" 6 1500000] 2500000000))
      (Ok (stake_of [1000000000]))
      = Ok token_profiles ∧
    Forall (λ p, symbol p ≠ "Unknown"%string ∧ txVolume p = ""%string) token_profiles ∧
    (length token_profiles ≤ 2 + 2)%nat.
Proof.
  destruct (fetch_token_profiles_das
              (Ok (assets_of [token "Unknown" 6 5; token "USDC" 6 1500000] 2500000000))
              (Ok (stake_of [1000000000])))
    as [token_profiles|e] eqn:Hrun; [|by vm_compute in Hrun].
  exists token_profiles. split; [reflexivity|].
  exact (fetch_token_profiles_das_entries _ _ _ Hrun).
Defined.

Lemma fetch_token_profiles_das_positive_balances_witness :
  let data := assets_of [token "USDC" 6 1500000; token "BONK" (-2) 3] 2500000000 in
  Forall (λ a, 0 ≤ asset_raw_balance a) (upstream_items data) ∧
  0 ≤ native_lamports data ∧
  ∃ token_profiles,
    fetch_token_profiles_das (Ok data) (Raise "Request failed") = Ok token_profiles ∧
    length token_profiles = 3%nat ∧
    Forall (λ p, (0 < balance p)%Qc) token_profiles.
Proof.
  intros data.
  assert (H1 : Forall (λ a, 0 ≤ asset_raw_balance a) (upstream_items data)).
  { repeat constructor; vm_compute; discriminate. }
  assert (H2 : 0 ≤ native_lamports data) by (vm_compute; discriminate).
  split; [exact H1|]. split; [exact H2|].
  destruct (fetch_token_profiles_das (Ok data) (Raise "Request failed"))
    as [token_profiles|e] eqn:Hrun; [|by vm_compute in Hrun].
  exists token_profiles. split; [reflexivity|]. split.
  - apply (f_equal (λ r, match r with Ok l => length l | Raise _ => 0%nat end)) in Hrun.
    rewrite <- Hrun. by vm_compute.
  - exact (fetch_token_profiles_das_positive_balances data _ _ H1 H2 Hrun).
Defined.

(** ** Signature detail fetcher *)

Section Batches.
Implicit Types (sigs batch : list string) (b : nat).

Lemma slice_take_drop {A} (l : list A) i b : slice l i (i + b) = take b (drop i l).
Proof. unfold slice. f_equal. lia. Qed.

Lemma chunks_concat {A} b (l : list A) m :
  (length l ≤ m * b)%nat →
  concat (map (λ k, take b (drop (k * b) l)) (seq 0 m)) = l.
Proof.
  revert l. induction m as [|m IH]; intros l Hl.
  - simpl in *. destruct l; [done|simpl in Hl; lia].
  - change (seq 0 (S m)) with (0%nat :: seq 1 m).
    rewrite <- seq_shift. cbn [map concat]. rewrite map_map.
    transitivity (take b l ++ drop b l); [|apply take_drop].
    f_equal. rewrite <- (IH (drop b l)) by (rewrite length_drop; lia).
    f_equal. apply map_ext. intros k. by rewrite drop_drop.
Qed.

Lemma range_step_covers n b : (1 ≤ b)%nat → (n ≤ (n + b - 1) / b * b)%nat.
Proof.
  intros Hb. pose proof (Nat.div_mod_eq (n + b - 1) b) as Hdm.
  pose proof (Nat.mod_upper_bound (n + b - 1) b ltac:(lia)). nia.
Qed.

Lemma batches_concat sigs b : (1 ≤ b)%nat → concat (batches sigs b) = sigs.
Proof.
  intros Hb. unfold batches, range_step. rewrite map_map.
  erewrite map_ext; [apply chunks_concat, range_step_covers; done|].
  intros k. apply slice_take_drop.
Qed.

Lemma batches_sizes sigs b :
  (1 ≤ b)%nat → Forall (λ batch, (1 ≤ length batch ≤ b)%nat) (batches sigs b).
Proof.
  intros Hb. unfold batches, range_step. rewrite map_map.
  apply Forall_forall. intros batch Hin%list_elem_of_In.
  apply in_map_iff in Hin as (k & <- & Hk).
  apply in_seq in Hk. rewrite slice_take_drop, length_take, length_drop.
  pose proof (Nat.Div0.mul_div_le (length sigs + b - 1) b). nia.
Qed.

(** What a run of the batch loop leaves behind, by its outcome. *)
Lemma fetch_parsed_signatures_loop_spec details sigs b indices results calls r :
  fetch_parsed_signatures_loop details sigs b indices results = (calls, r) →
  let bs := map (λ i, slice sigs i (i + b)) indices in
  match r with
  | Ok out =>
      posts calls = bs ∧ pauses calls = Z.of_nat (length bs) ∧
      ∃ datas, Forall2 (λ batch data, details batch = Ok data) bs datas ∧
               out = results ++ concat datas
  | Raise e =>
      ∃ k batch,
        bs !! k = Some batch ∧ details batch = Raise e ∧
        posts calls = take (S k) bs ∧ pauses calls = Z.of_nat k ∧
        Forall (λ batch', ∃ data, details batch' = Ok data) (take k bs)
  end.
Proof.
  revert results calls r. induction indices as [|i indices IH]; intros results calls r.
  - simpl. intros [= <- <-]. repeat split; try done. exists []. by rewrite app_nil_r.
  - cbn [fetch_parsed_signatures_loop map].
    destruct (details (slice sigs i (i + b))) as [data|e] eqn:Hd.
    + destruct (fetch_parsed_signatures_loop details sigs b indices (results ++ data))
        as [calls' r'] eqn:Hrest.
      intros [= <- <-]. apply IH in Hrest. cbn zeta in *.
      destruct r' as [out|e].
      * destruct Hrest as (Hposts & Hpauses & datas & Hall & ->).
        unfold posts, pauses in *. cbn [omap list_omap foldr length].
        rewrite Hposts, Hpauses. split; [done|]. split; [lia|].
        exists (data :: datas). split; [by constructor|]. simpl. by rewrite app_assoc.
      * destruct Hrest as (k & batch & Hk & Hfail & Hposts & Hpauses & Hbefore).
        exists (S k), batch. split; [done|]. split; [done|].
        unfold posts, pauses in *. cbn [omap list_omap foldr take].
        rewrite Hposts, Hpauses. split; [done|]. split; [lia|].
        constructor; eauto.
    + intros [= <- <-]. exists 0%nat, (slice sigs i (i + b)).
      repeat split; done.
Qed.

(** X15.  For a batch size of 1 or more, the batches of
    [fetch_parsed_signatures] cut the signature list into consecutive pieces:
    joined in order they give the list back, none is empty and none is longer
    than the batch size.  The batches posted are always a prefix of them, and
    when the function returns they were all posted, each followed by a
    one-second pause (also the last). *)
Theorem fetch_parsed_signatures_batches details sigs batch_size calls r :
  1 ≤ batch_size →
  fetch_parsed_signatures details sigs batch_size = (calls, r) →
  let bs := batches sigs (Z.to_nat batch_size) in
  concat bs = sigs ∧
  Forall (λ batch, 1 ≤ Z.of_nat (length batch) ≤ batch_size) bs ∧
  posts calls `prefix_of` bs ∧
  ((∃ out, r = Ok out) → posts calls = bs ∧ pauses calls = Z.of_nat (length bs)).
Proof.
  intros Hb Hrun bs. unfold fetch_parsed_signatures in Hrun.
  destruct (batch_size =? 0) eqn:H0; [apply Z.eqb_eq in H0; lia|].
  destruct (batch_size <? 0) eqn:Hneg; [apply Z.ltb_lt in Hneg; lia|].
  apply fetch_parsed_signatures_loop_spec in Hrun. cbn zeta in Hrun. fold bs in Hrun.
  split; [apply batches_concat; lia|]. split.
  { eapply Forall_impl; [apply batches_sizes; lia|]. simpl. intros batch Hlen. lia. }
  destruct r as [out|e].
  - destruct Hrun as (Hposts & Hpauses & _). by rewrite Hposts.
  - destruct Hrun as (k & batch & _ & _ & Hposts & _). rewrite Hposts.
    split; [apply prefix_take|]. by intros [out ?].
Qed.

(** X16.  Against an endpoint that answers every batch with one record per
    signature, in order, [fetch_parsed_signatures] returns one record per
    signature of the whole list, in the order of the list, for any batch size
    of 1 or more. *)
Theorem fetch_parsed_signatures_one_record_each details (f : string → parsed_tx)
    sigs batch_size :
  1 ≤ batch_size →
  (∀ batch, details batch = Ok (f <$> batch)) →
  (fetch_parsed_signatures details sigs batch_size).2 = Ok (f <$> sigs).
Proof.
  intros Hb Hd.
  destruct (fetch_parsed_signatures details sigs batch_size) as [calls r] eqn:Hrun.
  unfold fetch_parsed_signatures in Hrun.
  destruct (batch_size =? 0) eqn:H0; [apply Z.eqb_eq in H0; lia|].
  destruct (batch_size <? 0) eqn:Hneg; [apply Z.ltb_lt in Hneg; lia|].
  apply fetch_parsed_signatures_loop_spec in Hrun. cbn zeta in Hrun.
  fold (batches sigs (Z.to_nat batch_size)) in Hrun. simpl.
  destruct r as [out|e].
  - destruct Hrun as (_ & _ & datas & Hall & ->). simpl. f_equal.
    assert (Hcat : concat datas = f <$> concat (batches sigs (Z.to_nat batch_size))).
    { induction Hall as [|batch data bs datas Hbd _ IH]; [done|].
      rewrite Hd in Hbd. injection Hbd as <-. simpl. by rewrite fmap_app, IH. }
    by rewrite Hcat, batches_concat by lia.
  - destruct Hrun as (k & batch & _ & Hfail & _). by rewrite Hd in Hfail.
Qed.

(** X17.  [fetch_parsed_signatures] raises in two ways only: for a batch size
    of 0, before any request, and otherwise with the error of the first batch
    the endpoint refused, after the batches before it were answered and with
    no batch posted after it; the records already received are dropped. *)
Theorem fetch_parsed_signatures_raise_inversion details sigs batch_size calls e :
  fetch_parsed_signatures details sigs batch_size = (calls, Raise e) →
  (batch_size = 0 ∧ calls = []) ∨
  (1 ≤ batch_size ∧
   ∃ k batch,
     batches sigs (Z.to_nat batch_size) !! k = Some batch ∧ details batch = Raise e ∧
     posts calls = take (S k) (batches sigs (Z.to_nat batch_size)) ∧
     Forall (λ batch', ∃ data, details batch' = Ok data)
       (take k (batches sigs (Z.to_nat batch_size)))).
Proof.
  unfold fetch_parsed_signatures.
  destruct (batch_size =? 0) eqn:H0.
  { apply Z.eqb_eq in H0. intros [= <- _]. by left. }
  destruct (batch_size <? 0) eqn:Hneg; [done|].
  apply Z.eqb_neq in H0. apply Z.ltb_ge in Hneg.
  intros Hrun. apply fetch_parsed_signatures_loop_spec in Hrun. cbn zeta in Hrun.
  fold (batches sigs (Z.to_nat batch_size)) in Hrun.
  destruct Hrun as (k & batch & Hk & Hfail & Hposts & _ & Hbefore).
  right. split; [lia|]. eauto 10.
Qed.

(** X18.  The batch loop written out in [main] computes what
    [fetch_parsed_signatures] computes with its default batch size of 20:
    the same records or the same error. *)
Theorem resolve_is_fetch_parsed_signatures details sigs :
  resolve details sigs = (fetch_parsed_signatures details sigs 20).2.
Proof.
  unfold resolve, fetch_parsed_signatures.
  change (20 =? 0) with false. change (20 <? 0) with false.
  change (Z.to_nat 20) with 20%nat. cbn match.
  generalize (range_step (length sigs) 20) (@nil parsed_tx).
  intros indices. induction indices as [|i indices IH]; intros parsed; [done|].
  cbn [resolve_loop fetch_parsed_signatures_loop].
  destruct (details _) as [data|e]; [|done]. simpl.
  rewrite IH. by destruct (fetch_parsed_signatures_loop _ _ _ _ _).
Qed.

End Batches.

Lemma fetch_parsed_signatures_batches_witness :
  1 ≤ 2 ∧
  fetch_parsed_signatures picky_details ["a"; "b"; "c"; "d"; "e"]%string 2
    = ([Post ["a"; "b"]; Pause 1; Post ["c"; "d"]; Pause 1; Post ["e"]],
       Raise "Request failed: 400 Bad Request")%string ∧
  concat (batches ["a"; "b"; "c"; "d"; "e"]%string (Z.to_nat 2))
    = ["a"; "b"; "c"; "d"; "e"]%string.
Proof.
  assert (H1 : 1 ≤ 2) by lia.
  assert (H2 : fetch_parsed_signatures picky_details ["a"; "b"; "c"; "d"; "e"]%string 2
    = ([Post ["a"; "b"]; Pause 1; Post ["c"; "d"]; Pause 1; Post ["e"]],
       Raise "Request failed: 400 Bad Request")%string) by reflexivity.
  split; [exact H1|]. split; [exact H2|].
  exact (proj1 (fetch_parsed_signatures_batches _ _ _ _ _ H1 H2)).
Defined.

Lemma fetch_parsed_signatures_one_record_each_witness :
  1 ≤ 2 ∧
  (∀ batch, details steady_upstream batch = Ok ((λ _, transfer_rec) <$> batch)) ∧
  (fetch_parsed_signatures (details steady_upstream) ["a"; "b"; "c"]%string 2).2
    = Ok [transfer_rec; transfer_rec; transfer_rec].
Proof.
  assert (H1 : 1 ≤ 2) by lia.
  assert (H2 : ∀ batch, details steady_upstream batch = Ok ((λ _, transfer_rec) <$> batch))
    by (intros batch; reflexivity).
  split; [exact H1|]. split; [exact H2|].
  exact (fetch_parsed_signatures_one_record_each (details steady_upstream)
           (λ _, transfer_rec) ["a"; "b"; "c"]%string 2 H1 H2).
Defined.

Lemma fetch_parsed_signatures_raise_inversion_witness :
  fetch_parsed_signatures picky_details ["a"; "b"; "c"]%string 2
    = ([Post ["a"; "b"]; Pause 1; Post ["c"]], Raise "Request failed: 400 Bad Request")%string ∧
  ∃ batch, picky_details batch = Raise "Request failed: 400 Bad Request"%string.
Proof.
  assert (H : fetch_parsed_signatures picky_details ["a"; "b"; "c"]%string 2
    = ([Post ["a"; "b"]; Pause 1; Post ["c"]],
       Raise "Request failed: 400 Bad Request")%string) by reflexivity.
  split; [exact H|].
  destruct (fetch_parsed_signatures_raise_inversion _ _ _ _ _ H)
    as [[Hzero _]|(_ & k & batch & _ & Hfail & _)]; [discriminate Hzero|].
  exists batch. exact Hfail.
Defined.

(** ** What one analysis reports *)

Section Report.
Implicit Types (up : upstream) (addr e : string) (parsed : list parsed_tx) (p q : profile).

Lemma annotate_spec parsed total profiles :
  ∃ out,
    annotate parsed total profiles = Ok out ∧
    Forall2 (λ p q, symbol q = symbol p ∧ balance q = balance p ∧
                    volume_ratio (symbol_count parsed (symbol p)) total = Ok (txVolume q))
      profiles out.
Proof.
  induction profiles as [|p rest (out & Hout & IH)].
  - exists []. split; [done|constructor].
  - simpl. destruct total as [|m].
    + simpl. rewrite Hout. simpl. eexists. split; [reflexivity|]. by constructor.
    + rewrite volume_ratio_pos by done. simpl. rewrite Hout. simpl.
      eexists. split; [reflexivity|]. by constructor.
Qed.

Lemma signatures_raise txs e :
  signatures txs = Raise e → e = "'signature'"%string ∧ ∃ t, t ∈ txs ∧ signature t = None.
Proof.
  induction txs as [|t txs IH]; [done|]. cbn [signatures].
  destruct (signature t) eqn:Ht.
  - destruct (signatures txs) as [sigs|e'] eqn:Hs; [done|]. simpl. intros [= ->].
    destruct (IH eq_refl) as (-> & t' & Hin & Ht'). split; [done|].
    exists t'. split; [by right|done].
  - intros [= <-]. split; [done|]. exists t. split; [by left|done].
Qed.

Lemma signatures_missing txs t :
  t ∈ txs → signature t = None → signatures txs = Raise "'signature'".
Proof.
  intros Hin Ht. induction Hin as [t txs|t u txs Hin IH]; cbn [signatures].
  - by rewrite Ht.
  - destruct (signature u); [|done]. by rewrite IH.
Qed.

Lemma resolve_loop_raise details sigs indices parsed e :
  resolve_loop details sigs indices parsed = Raise e → ∃ batch, details batch = Raise e.
Proof.
  revert parsed. induction indices as [|i indices IH]; intros parsed; [done|].
  cbn [resolve_loop]. destruct (details _) as [data|e'] eqn:Hd; simpl.
  - apply IH.
  - intros [= ->]. eauto.
Qed.

Lemma analyse_Ok_inv up addr st :
  analyse up addr = Ok st →
  ∃ txs profiles sigs parsed,
    get_transactions (history up addr) 500 = Ok (txs, small_tx_count st) ∧
    fetch_token_profiles_das (assets up addr) (stakes up addr) = Ok profiles ∧
    signatures txs = Ok sigs ∧
    resolve (details up) (take 100 sigs) = Ok parsed ∧
    total st = length parsed ∧
    count st = type_distribution parsed ∧
    annotate parsed (length parsed) profiles = Ok (token_profiles st).
Proof.
  unfold analyse.
  intros ([txs small] & Htx & H)%bind_Ok.
  apply bind_Ok in H as (profiles & Hp & H).
  apply bind_Ok in H as (all_sigs & Hs & H).
  apply bind_Ok in H as (parsed & Hr & H).
  apply bind_Ok in H as (annotated & Ha & [= <-]). simpl.
  exists txs, profiles, all_sigs, parsed. repeat split; done.
Qed.

Lemma Forall2_fmap_same {A B} (f : A → B) (l k : list A) :
  Forall2 (λ x y, f y = f x) l k → f <$> k = f <$> l.
Proof. induction 1 as [|x y l k Hxy _ IH]; [done|]. by rewrite !fmap_cons, Hxy, IH. Qed.




Lemma volume_ratio_none total : volume_ratio 0 total = Ok "0.00%"%string.
Proof.
  destruct (decide (total = 0%nat)) as [->|Ht]; [done|].
  rewrite volume_ratio_pos by done. f_equal.
Qed.

Lemma volume_ratio_all n : n ≠ 0%nat → volume_ratio n n = Ok "100.00%"%string.
Proof.
  intros Hn. rewrite volume_ratio_pos by done. f_equal.
  unfold Qcdiv. rewrite Qcmult_inv_r; [done|].
  intros H. apply Qc_of_Z_zero in H. lia.
Qed.

(** X19.  On upstream numbers within [float_range], the analysis of an
    address can fail in four ways only: the error of pagination, the error of
    the asset request, [KeyError('signature')] for a normal transaction
    without signature, or the error of a detail request.  Computing the
    statistics never raises (no division by zero). *)
Theorem analyse_raise_sources up addr e :
  (∀ data, assets up addr = Ok data → float_range data) →
  analyse up addr = Raise e →
  get_transactions (history up addr) 500 = Raise e ∨
  assets up addr = Raise e ∨
  (e = "'signature'"%string ∧
   ∃ txs small_count t, get_transactions (history up addr) 500 = Ok (txs, small_count) ∧
                        t ∈ txs ∧ signature t = None) ∨
  (∃ batch, details up batch = Raise e).
Proof.
  intros _. unfold analyse.
  destruct (get_transactions (history up addr) 500) as [[txs small_count]|e1] eqn:Htx;
    [|intros [= ->]; by left].
  simpl.
  destruct (assets up addr) as [data|e2] eqn:Has; [|intros [= ->]; right; by left].
  destruct (get_stake_accounts_ok (stakes up addr)) as [staked Hs].
  rewrite (fetch_token_profiles_das_unfold _ _ _ Hs). simpl.
  destruct (signatures txs) as [sigs|e3] eqn:Hsig.
  - simpl. destruct (resolve (details up) (take 100 sigs)) as [parsed|e4] eqn:Hres.
    + simpl.
      destruct (annotate_spec parsed (length parsed)
                  (omap profile_of_asset (upstream_items data)
                     ++ sol_profile (native_lamports data) ++ staked_profile staked))
        as (out & -> & _).
      done.
    + simpl. intros [= ->]. do 3 right. by apply resolve_loop_raise in Hres.
  - simpl. intros [= ->]. apply signatures_raise in Hsig as (-> & t & Hin & Ht).
    right. right. left. split; [done|]. eauto 6.
Qed.

(** X20.  When pagination and the asset request succeed and one of the normal
    transactions collected has no signature, at any position and also beyond
    the first 100, the analysis raises [KeyError('signature')]: the signatures
    of all of them are read before the list is cut to 100. *)
Theorem analyse_missing_signature up addr txs small_count data t :
  get_transactions (history up addr) 500 = Ok (txs, small_count) →
  assets up addr = Ok data →
  t ∈ txs → signature t = None →
  analyse up addr = Raise "'signature'".
Proof.
  intros Htx Has Hin Ht. unfold analyse. rewrite Htx. simpl. rewrite Has.
  destruct (get_stake_accounts_ok (stakes up addr)) as [staked Hs].
  rewrite (fetch_token_profiles_das_unfold _ _ _ Hs). simpl.
  by rewrite (signatures_missing _ _ Hin Ht).
Qed.

(** X21.  In a report, the counts of the type distribution sum to the total,
    the small count is the paginator's, and the profiles are those of the
    asset builder with symbol and balance untouched, in the same order. *)
Theorem analyse_report_consistent up addr st :
  analyse up addr = Ok st →
  counter_total (count st) = total st ∧
  ∃ txs profiles,
    get_transactions (history up addr) 500 = Ok (txs, small_tx_count st) ∧
    fetch_token_profiles_das (assets up addr) (stakes up addr) = Ok profiles ∧
    symbol <$> token_profiles st = symbol <$> profiles ∧
    balance <$> token_profiles st = balance <$> profiles.
Proof.
  intros (txs & profiles & sigs & parsed & Htx & Hp & _ & _ & Htot & Hcount & Hann)%analyse_Ok_inv.
  split.
  - rewrite Hcount, Htot. unfold type_distribution, Counter.
    rewrite Counter_foldl_total. unfold counter_total.
    by rewrite map_fold_empty, length_map.
  - exists txs, profiles. split; [done|]. split; [done|].
    destruct (annotate_spec parsed (length parsed) profiles) as (out & Hout & Hall).
    rewrite Hann in Hout. injection Hout as <-.
    split; apply Forall2_fmap_same; (eapply Forall2_impl; [exact Hall|]);
      by intros p q (? & ? & _).
Qed.


(** X23.  With the total taken as the number of parsed records, a profile
    whose symbol no record carries gets ["0.00%"], and one whose symbol every
    record carries (there being at least one) gets ["100.00%"]. *)
Theorem annotate_absent_and_sole_symbols parsed profiles out :
  annotate parsed (length parsed) profiles = Ok out →
  Forall2 (λ p q,
      (symbol_count parsed (symbol p) = 0%nat → txVolume q = "0.00%"%string) ∧
      (parsed ≠ [] → symbol_count parsed (symbol p) = length parsed →
       txVolume q = "100.00%"%string))
    profiles out.
Proof.
  intros Hann.
  destruct (annotate_spec parsed (length parsed) profiles) as (out' & Hout & Hall).
  rewrite Hann in Hout. injection Hout as <-.
  eapply Forall2_impl; [exact Hall|]. simpl. intros p q (_ & _ & Hv). split.
  - intros H0. rewrite H0, volume_ratio_none in Hv. by injection Hv.
  - intros Hne Hall'. rewrite Hall', volume_ratio_all in Hv; [by injection Hv|].
    by destruct parsed.
Qed.

End Report.

Lemma analyse_raise_sources_witness :
  (∀ data, assets picky_upstream "A" = Ok data → float_range data) ∧
  analyse picky_upstream "A" = Raise "Request failed: 400 Bad Request"%string ∧
  ∃ batch, details picky_upstream batch = Raise "Request failed: 400 Bad Request"%string.
Proof.
  assert (Hrange : ∀ data, assets picky_upstream "A" = Ok data → float_range data).
  { intros data Hdata. injection Hdata as <-. split; [|vm_compute; discriminate].
    apply Forall_cons. split; [split; [split|]; vm_compute; discriminate|].
    apply Forall_nil_2. }
  assert (H : analyse picky_upstream "A" = Raise "Request failed: 400 Bad Request"%string)
    by (by vm_compute).
  split; [exact Hrange|]. split; [exact H|].
  destruct (analyse_raise_sources picky_upstream "A" _ Hrange H)
    as [Hpages|[Hassets|[[Hkey _]|Hbatch]]];
    [discriminate Hpages|discriminate Hassets|discriminate Hkey|exact Hbatch].
Defined.

Lemma analyse_missing_signature_witness :
  get_transactions (history unsigned_upstream "A") 500 = Ok ([tx_unsigned; tx_big], 0%nat) ∧
  tx_unsigned ∈ [tx_unsigned; tx_big] ∧
  signature tx_unsigned = None ∧
  analyse unsigned_upstream "A" = Raise "'signature'".
Proof.
  assert (H1 : get_transactions (history unsigned_upstream "A") 500
               = Ok ([tx_unsigned; tx_big], 0%nat)) by reflexivity.
  assert (H2 : tx_unsigned ∈ [tx_unsigned; tx_big]) by apply list_elem_of_here.
  split; [exact H1|]. split; [exact H2|]. split; [reflexivity|].
  exact (analyse_missing_signature unsigned_upstream "A" _ _ (assets_of [] 0) tx_unsigned
           H1 eq_refl H2 eq_refl).
Defined.

Lemma analyse_report_consistent_witness :
  ∃ st, analyse steady_upstream "A" = Ok st ∧
        counter_total (count st) = total st ∧
        symbol <$> token_profiles st = ["USDC"; "SOL"; "stakedSOL"]%string.
Proof.
  destruct (analyse steady_upstream "A") as [st|e] eqn:Hrun; [|by vm_compute in Hrun].
  exists st. split; [reflexivity|].
  split; [exact (proj1 (analyse_report_consistent steady_upstream "A" st Hrun))|].
  apply (f_equal (λ r, match r with
                       | Ok s => symbol <$> token_profiles s
                       | Raise _ => []
                       end)) in Hrun.
  rewrite <- Hrun. by vm_compute.
Defined.


Lemma annotate_absent_and_sole_symbols_witness :
  let held := [ {| symbol := "USDC"; balance := Q2Qc (3 # 2); txVolume := "" |};
                {| symbol := "SOL"; balance := Q2Qc (5 # 2); txVolume := "" |} ] in
  ∃ out, annotate [swap; swap] (length [swap; swap]) held = Ok out ∧
         txVolume <$> out = ["100.00%"; "0.00%"]%string.
Proof.
  intros held.
  destruct (annotate [swap; swap] (length [swap; swap]) held) as [out|e] eqn:Hrun;
    [|by vm_compute in Hrun].
  exists out. split; [reflexivity|].
  pose proof (annotate_absent_and_sole_symbols [swap; swap] held out Hrun) as Hall.
  apply Forall2_cons_inv_l in Hall as (q1 & out1 & [_ H1] & Hall & ->).
  apply Forall2_cons_inv_l in Hall as (q2 & out2 & [H2 _] & Hall & ->).
  apply Forall2_nil_inv_l in Hall as ->.
  rewrite !fmap_cons, (H1 ltac:(discriminate) eq_refl), (H2 eq_refl). reflexivity.
Defined.

(** ** Sessions *)

Section Sessions.
Implicit Types (up : upstream) (line : string) (inputs : list string)
  (visits : list (string * string)).

(** One successful visit uses up two lines. *)
Lemma main_loop_visit up v inputs st :
  ¬ is_quit v.1 →
  analyse up (strip v.1) = Ok st →
  main_loop up (v.1 :: v.2 :: inputs) =
    (visit_output up v ++ (main_loop up inputs).1, (main_loop up inputs).2).
Proof.
  intros Hq Ha. cbn [main_loop]. unfold is_quit in Hq.
  rewrite bool_decide_eq_false_2 by done. rewrite Ha.
  unfold visit_output. rewrite Ha.
  by destruct (main_loop up inputs) as [outs r].
Qed.

Lemma main_loop_ok_quit up n inputs outs :
  (length inputs ≤ n)%nat →
  main_loop up inputs = (outs, Ok ()) →
  ∃ line, line ∈ inputs ∧ is_quit line.
Proof.
  revert inputs outs. induction n as [|n IH]; intros inputs outs Hn.
  - destruct inputs; [done|simpl in Hn; lia].
  - destruct inputs as [|line inputs]; [done|]. cbn [main_loop].
    case_bool_decide as Hq.
    { intros _. exists line. split; [by left|done]. }
    destruct (analyse up (strip line)) as [st|e]; [|done].
    destruct inputs as [|save inputs]; [done|].
    destruct (main_loop up inputs) as [outs' r'] eqn:Hrest.
    intros [= _ ->].
    apply IH in Hrest as (l & Hin & Hl); [|simpl in Hn; lia].
    exists l. split; [by do 2 right|done].
Qed.

(** X24.  A session typed in ASCII, of visits whose analyses all succeed on
    upstream numbers within [float_range], closed by an exit line, shows the
    banner, then for each visit in turn the address prompt, its report and the
    save prompt (and the save when the answer is [y]), then one last address
    prompt, and ends normally; lines after the exit line are not read.
    [Saved] stands for a write the file system accepts. *)
Theorem main_session up visits quit rest :
  Forall (λ v, ascii_line v.1 ∧ ascii_line v.2 ∧
               ¬ is_quit v.1 ∧
               (∀ data, assets up (strip v.1) = Ok data → float_range data) ∧
               ∃ st, analyse up (strip v.1) = Ok st) visits →
  ascii_line quit →
  is_quit quit →
  main up (session_inputs visits ++ quit :: rest) =
    (Banner :: flat_map (visit_output up) visits ++ [AskAddress], Ok ()).
Proof.
  intros Hvisits _ Hquit. unfold main.
  assert (Hloop : main_loop up (session_inputs visits ++ quit :: rest) =
                  (flat_map (visit_output up) visits ++ [AskAddress], Ok ())).
  { induction Hvisits as [|v visits (_ & _ & Hq & _ & st & Ha) _ IH].
    - simpl. unfold is_quit in Hquit. by rewrite bool_decide_eq_true_2.
    - simpl session_inputs. simpl app.
      rewrite (main_loop_visit up v _ st Hq Ha). fold (session_inputs visits).
      rewrite IH. simpl. by rewrite <- app_assoc. }
  by rewrite Hloop.
Qed.

(** X25.  On lines typed in ASCII, [main] returns normally only after reading
    an exit line: a session whose lines hold neither [exit] nor [quit] (in any
    letter case, blanks around) ends in an error. *)
Theorem main_returns_only_after_quit up inputs outs :
  Forall ascii_line inputs →
  main up inputs = (outs, Ok ()) →
  ∃ line, line ∈ inputs ∧ is_quit line.
Proof.
  intros _. unfold main. destruct (main_loop up inputs) as [outs' r] eqn:Hloop.
  intros [= _ ->]. by eapply main_loop_ok_quit.
Qed.

End Sessions.

Lemma main_session_witness :
  Forall (λ v, ascii_line v.1 ∧ ascii_line v.2 ∧
               ¬ is_quit v.1 ∧
               (∀ data, assets steady_upstream (strip v.1) = Ok data → float_range data) ∧
               ∃ st, analyse steady_upstream (strip v.1) = Ok st)
    [("A", "n"); (" B ", " Y ")]%string ∧
  ascii_line " QUIT " ∧
  is_quit " QUIT " ∧
  ∃ st, main steady_upstream ["A"; "n"; " B "; " Y "; " QUIT "; "C"]%string
        = ([Banner; AskAddress; Report "A" st; AskSave;
            AskAddress; Report "B" st; AskSave; Saved "B"; AskAddress], Ok ()).
Proof.
  assert (Hnq : ∀ line, lower (strip line) = "a"%string ∨ lower (strip line) = "b"%string →
                        ¬ is_quit line).
  { intros line Hl. unfold is_quit. rewrite !not_elem_of_cons.
    destruct Hl as [-> | ->]; repeat split; [| |apply not_elem_of_nil| | |apply not_elem_of_nil];
      discriminate. }
  assert (Hok : ∀ addr, ∃ st, analyse steady_upstream addr = Ok st).
  { intros addr. destruct (analyse steady_upstream addr) as [st|e] eqn:Hrun; [eauto|].
    by vm_compute in Hrun. }
  assert (Hascii : ∀ s, bool_decide (ascii_line s) = true → ascii_line s).
  { intros s Hs. by apply bool_decide_eq_true in Hs. }
  assert (Hrange : ∀ addr data, assets steady_upstream addr = Ok data → float_range data).
  { intros addr data Hdata. injection Hdata as <-. split; [|vm_compute; discriminate].
    repeat (apply Forall_cons; split; [split; [split|]; vm_compute; discriminate|]).
    apply Forall_nil_2. }
  assert (H1 : Forall (λ v, ascii_line v.1 ∧ ascii_line v.2 ∧
                 ¬ is_quit v.1 ∧
                 (∀ data, assets steady_upstream (strip v.1) = Ok data → float_range data) ∧
                 ∃ st, analyse steady_upstream (strip v.1) = Ok st)
                 [("A", "n"); (" B ", " Y ")]%string).
  { repeat (apply Forall_cons; split;
              [split; [by apply Hascii|split; [by apply Hascii|
                 split; [apply Hnq|split; [apply Hrange|apply Hok]]]]|]);
      [by left|by right|apply Forall_nil_2]. }
  assert (H0 : ascii_line " QUIT ") by (by apply Hascii).
  assert (H2 : is_quit " QUIT ").
  { unfold is_quit. apply list_elem_of_further, list_elem_of_here. }
  split; [exact H1|]. split; [exact H0|]. split; [exact H2|].
  destruct (analyse steady_upstream "A") as [st|e] eqn:Hrun; [|by vm_compute in Hrun].
  exists st.
  pose proof (main_session steady_upstream [("A", "n"); (" B ", " Y ")]%string
                " QUIT "%string ["C"%string] H1 H0 H2) as Hm.
  change (session_inputs [("A", "n"); (" B ", " Y ")]%string ++ [" QUIT "; "C"]%string)
    with ["A"; "n"; " B "; " Y "; " QUIT "; "C"]%string in Hm.
  rewrite Hm. unfold visit_output, flat_map.
  change (analyse steady_upstream (strip ("A", "n").1)) with (analyse steady_upstream "A").
  change (analyse steady_upstream (strip (" B ", " Y ").1))
    with (analyse steady_upstream "A").
  rewrite Hrun. reflexivity.
Defined.

Lemma main_returns_only_after_quit_witness :
  Forall ascii_line ["Exit"; "A"]%string ∧
  main flaky_upstream ["Exit"; "A"]%string = ([Banner; AskAddress], Ok ()) ∧
  ∃ line, line ∈ ["Exit"; "A"]%string ∧ is_quit line.
Proof.
  assert (H0 : Forall ascii_line ["Exit"; "A"]%string).
  { repeat (apply Forall_cons; split;
              [refine (bool_decide_unpack _ _); by vm_compute|]).
    apply Forall_nil_2. }
  assert (H : main flaky_upstream ["Exit"; "A"]%string = ([Banner; AskAddress], Ok ()))
    by reflexivity.
  split; [exact H0|]. split; [exact H|].
  exact (main_returns_only_after_quit _ _ _ H0 H).
Defined.

(** ** Narrative stage *)

Section Narrative.
Context {J : Type} (loads : string → option J) (clean : string → string).

(** X26.  Whatever the chat request does, the text that [main] keeps in
    [analysis] is one that [json.loads] accepts, so the save step never fails
    on decoding it: it is the cleaned reply when that parses, and ["{}"] when
    the request raised or the reply did not parse. *)
Theorem narrative_always_saves doc0 chat :
  loads "{}" = Some doc0 →
  (∃ doc, save_document loads (narrative loads clean chat) = Ok doc) ∧
  (narrative loads clean chat = "{}"%string ∨
   ∃ content, chat = Ok content ∧ narrative loads clean chat = clean content).
Proof.
  intros H0. unfold save_document, narrative.
  destruct chat as [content|e].
  - destruct (loads (clean content)) as [doc|] eqn:Hl.
    + rewrite Hl. split; [eauto|]. right. eauto.
    + rewrite H0. split; [eauto|]. by left.
  - rewrite H0. split; [eauto|]. by left.
Qed.

End Narrative.

Lemma narrative_always_saves_witness :
  sample_loads "{}" = Some 0%nat ∧
  narrative sample_loads strip (Ok " [1, 2] ") = "[1, 2]"%string ∧
  narrative sample_loads strip (Ok "Sorry, no report.") = "{}"%string ∧
  ∃ doc, save_document sample_loads (narrative sample_loads strip (Ok "Sorry, no report."))
         = Ok doc.
Proof.
  assert (H : sample_loads "{}" = Some 0%nat) by reflexivity.
  split; [exact H|]. split; [reflexivity|]. split; [reflexivity|].
  exact (proj1 (narrative_always_saves sample_loads strip 0%nat
                  (Ok "Sorry, no report."%string) H)).
Defined.
